(** * cell-abm-pipeline: conversion of cell samples to ARCADE input formats

    A shallow embedding of [ConvertARCADE]
    (src/cell_abm_pipeline/initial_conditions/convert_arcade.py) and of the
    pieces of Python and pandas it runs on, followed by the properties of the
    conversion that the specification states.

    Conventions of the embedding.
    - Python and numpy floating point numbers are exact rationals ([Q]):
      rounding error is abstracted away.  A numpy scalar that may be [nan] or
      infinite is an [npfloat]; [None] stands for any non-finite value.
    - A data frame is its ordered list of rows together with the fact of
      having a ["region"] column or not.
    - A function that can raise returns a [result]; the functions on numpy
      arrays of [CalculateCoefficients] return an [option]. *)

From Stdlib Require Import QArith Qround Ascii Lqa.
From stdpp Require Import gmap strings list sorting pretty.

Local Open Scope Z_scope.
Set Warnings "-clear-no-such-hyp".

(** ** Exceptions and the error monad *)

Inductive exn :=
  | KeyError (key : string)
  | ZeroDivisionError
  | ValueError
  | IndexError
  (** not a Python exception: the run leaves what the embedding represents
      (a cast to int32 out of range, whose value numpy leaves to the
      platform; a [nan] stored in a coordinate column) *)
  | OutsideModel.

Inductive result (A : Type) :=
  | Ok (a : A)
  | Raise (e : exn).
Arguments Ok {A} a.
Arguments Raise {A} e.

Global Instance result_ret : MRet result := λ A a, Ok a.
Global Instance result_bind : MBind result := λ A B f m,
  match m with Ok a => f a | Raise e => Raise e end.
Global Instance result_fmap : FMap result := λ A B f m,
  match m with Ok a => Ok (f a) | Raise e => Raise e end.

Definition is_Ok {A} (m : result A) : Prop := ∃ a, m = Ok a.

(** [mapM] of stdpp, specialised so that it computes by structural recursion:
    a list comprehension whose body can raise. *)
Fixpoint traverse {A B} (f : A → result B) (l : list A) : result (list B) :=
  match l with
  | [] => Ok []
  | a :: l => b ← f a; bs ← traverse f l; Ok (b :: bs)
  end.

(** ** Numbers *)

(** A numpy scalar: [None] is [nan] or an infinity. *)
Abbreviation npfloat := (option Q).

Global Instance Qlt_dec (a b : Q) : Decision (a < b)%Q :=
  match Qlt_le_dec a b with
  | left H => left H
  | right H => right (Qle_not_lt _ _ H)
  end.

Global Instance Qeq_dec' (a b : Q) : Decision (a == b)%Q := Qeq_dec a b.

(** [int(v)] on a finite float, and the value of [astype] to an integer type:
    truncation toward zero. *)
Definition Qtrunc (q : Q) : Z := Z.quot (Qnum q) (Zpos (Qden q)).

Definition int32_min : Z := - 2 ^ 31.
Definition int32_max : Z := 2 ^ 31 - 1.

(** [Series.astype("int32")] on one value: pandas refuses a non-finite value
    with a [ValueError]. *)
Definition astype_int32 (v : npfloat) : result Z :=
  match v with
  | Some q =>
      let t := Qtrunc q in
      if decide (int32_min ≤ t ≤ int32_max) then Ok t else Raise OutsideModel
  | None => Raise ValueError
  end.

(** [int(v)] on a numpy scalar; [int(nan)] raises [ValueError]. *)
Definition py_int (v : npfloat) : result Z :=
  match v with
  | Some q => Ok (Qtrunc q)
  | None => Raise ValueError
  end.

(** [a / b] on Python numbers. *)
Definition py_truediv (a b : Q) : result Q :=
  if decide (b == 0)%Q then Raise ZeroDivisionError else Ok (a / b)%Q.

(** Arithmetic of a numpy scalar with a Python number: no exception, a zero
    divisor gives a non-finite value. *)
Definition np_sub (a b : npfloat) : npfloat :=
  a ← a; b ← b; Some (a - b)%Q.
Definition np_neg (a : npfloat) : npfloat := Qopp <$> a.
Definition np_add (a : npfloat) (b : Q) : npfloat := (λ a, a + b)%Q <$> a.
Definition np_mul (a : npfloat) (b : Q) : npfloat := (λ a, a * b)%Q <$> a.
Definition np_div (a : npfloat) (b : Q) : npfloat :=
  a ← a; if decide (b == 0)%Q then None else Some (a / b)%Q.

(** ** Python containers *)

(** [d[k]] on a dict. *)
Definition dict_getitem (d : gmap string Q) (k : string) : result Q :=
  match d !! k with
  | Some v => Ok v
  | None => Raise (KeyError k)
  end.

(** [l[i]] on a list, negative indices counting from the end. *)
Definition list_getitem {A} (l : list A) (i : Z) : result A :=
  let j := if decide (i < 0) then i + Z.of_nat (length l) else i in
  if decide (0 ≤ j) then
    match l !! Z.to_nat j with
    | Some a => Ok a
    | None => Raise IndexError
    end
  else Raise IndexError.

(** [enumerate(l)]. *)
Definition enumerate {A} (l : list A) : list (Z * A) :=
  imap (λ i a, (Z.of_nat i, a)) l.

(** [next(iterator, default)]. *)
Definition next {A} (it : list A) (default : A) : A :=
  match it with
  | [] => default
  | a :: _ => a
  end.

(** [len(l)]. *)
Definition len {A} (l : list A) : Z := Z.of_nat (length l).

(** ** Sample tables *)

Record Sample := {
  sample_id : Z;
  sample_x : Q;
  sample_y : Q;
  sample_z : Q;
  (** read only when the table has the column *)
  sample_region : string
}.

Record DataFrame := {
  (** ["region" in samples.columns] *)
  has_region : bool;
  rows : list Sample
}.

Inductive coord := cx | cy | cz.

(** [coords = ["x", "y", "z"]] *)
Definition coords : list coord := [cx; cy; cz].

Definition get_coord (i : coord) (r : Sample) : Q :=
  match i with
  | cx => sample_x r
  | cy => sample_y r
  | cz => sample_z r
  end.

Definition set_coord (i : coord) (v : Q) (r : Sample) : Sample :=
  match i with
  | cx => {| sample_id := sample_id r; sample_x := v; sample_y := sample_y r;
             sample_z := sample_z r; sample_region := sample_region r |}
  | cy => {| sample_id := sample_id r; sample_x := sample_x r; sample_y := v;
             sample_z := sample_z r; sample_region := sample_region r |}
  | cz => {| sample_id := sample_id r; sample_x := sample_x r; sample_y := sample_y r;
             sample_z := v; sample_region := sample_region r |}
  end.

(** [df[i]] for a coordinate column. *)
Definition column (i : coord) (df : DataFrame) : list Q := get_coord i <$> rows df.

(** Rows of [df] selected by a mask, columns kept. *)
Definition select (P : Sample → Prop) `{∀ r, Decision (P r)} (df : DataFrame) : DataFrame :=
  {| has_region := has_region df; rows := filter P (rows df) |}.

(** ** pandas *)

Module Pandas.

(** [Series.min()] and [Series.max()]: [nan] on an empty column. *)
Definition Qmin (a b : Q) : Q := if decide (b < a)%Q then b else a.
Definition Qmax (a b : Q) : Q := if decide (a < b)%Q then b else a.

Definition min (col : list Q) : npfloat :=
  match col with
  | [] => None
  | a :: col => Some (foldl Qmin a col)
  end.

Definition max (col : list Q) : npfloat :=
  match col with
  | [] => None
  | a :: col => Some (foldl Qmax a col)
  end.

Definition sum (col : list Q) : Q := foldr Qplus 0%Q col.

(** [Series.mean()]: [nan] on an empty column. *)
Definition mean (col : list Q) : npfloat :=
  match col with
  | [] => None
  | _ => Some (sum col / inject_Z (len col))%Q
  end.

(** [Series.unique()]: the distinct values, in order of first appearance. *)
Fixpoint unique {A} `{EqDecision A} (l : list A) : list A :=
  match l with
  | [] => []
  | a :: l => a :: filter (λ b, b ≠ a) (unique l)
  end.

(** Python's order on strings: lexicographic, by code. *)
Definition str_le (s1 s2 : string) : Prop := String.leb s1 s2 = true.

Global Instance str_le_dec (s1 s2 : string) : Decision (str_le s1 s2).
Proof. unfold str_le. apply _. Defined.

(** [df.groupby(by)] as the sequence it iterates to: one [(key, group)] per
    distinct key, keys ascending ([sort=True] is the default), each group
    holding its rows in their original order.  (pandas leaves out the rows
    whose key is missing; an id or a region of a row here never is.) *)
Definition groupby {K} `{EqDecision K} (le : relation K) `{∀ a b, Decision (le a b)}
    (by_ : Sample → K) (df : DataFrame) : list (K * DataFrame) :=
  (λ k, (k, select (λ r, by_ r = k) df)) <$> merge_sort le (unique (by_ <$> rows df)).

(** [df.groupby(by).filter(func)]: the rows of the groups on which [func]
    holds, taken from [df] in their original order. *)
Definition groupby_filter {K} `{EqDecision K} (le : relation K) `{∀ a b, Decision (le a b)}
    (by_ : Sample → K) (func : DataFrame → bool) (df : DataFrame) : DataFrame :=
  let kept := (filter (λ g, func g.2 = true) (groupby le by_ df)).*1 in
  select (λ r, by_ r ∈ kept) df.

End Pandas.

Definition groupby_id : DataFrame → list (Z * DataFrame) :=
  Pandas.groupby Z.le sample_id.
Definition groupby_region : DataFrame → list (string * DataFrame) :=
  Pandas.groupby Pandas.str_le sample_region.

(** ** Missing modules *)

(** The constants that convert_arcade.py imports from
    [cell_abm_pipeline.initial_conditions.__config__], a module that is not
    among the sources: per-region statistics, taken as a parameter. *)
Record Config := {
  VOLUME_MU : gmap string Q;
  VOLUME_SIGMA : gmap string Q;
  CRITICAL_VOLUME_MU : gmap string Q;
  CRITICAL_VOLUME_SIGMA : gmap string Q;
  HEIGHT_MU : gmap string Q;
  HEIGHT_SIGMA : gmap string Q;
  CRITICAL_HEIGHT_MU : gmap string Q;
  CRITICAL_HEIGHT_SIGMA : gmap string Q
}.

Module ProcessSamples.

(** Modelled from the spec: [ProcessSamples.get_step_size] (process_samples.py
    is not among the sources) is the smallest positive coordinate delta
    observed on the axis, and the default resolution of one unit on a
    degenerate axis.  The conversion takes the step function as a parameter;
    this one instantiates it in the examples. *)
Definition get_step_size (col : list Q) : Q :=
  match a ← col; b ← col; if decide (b < a)%Q then [(a - b)%Q] else [] with
  | [] => 1%Q
  | d :: deltas => foldl Pandas.Qmin d deltas
  end.

End ProcessSamples.

(** ** Output records *)

(** An entry of ["regions"] in a cell. *)
Record CellRegion := {
  region_region : string;
  region_voxels : Z;
  region_criticals : Q * npfloat
}.

(** An entry of a .CELLS file. *)
Record Cell := {
  cell_id : Z;
  cell_parent : Z;
  cell_pop : Z;
  cell_age : Z;
  cell_divisions : Z;
  cell_state : string;
  cell_phase : string;
  cell_voxels : Z;
  cell_criticals : Q * npfloat;
  (** the key ["regions"] is present only for a table with regions *)
  cell_regions : option (list CellRegion)
}.

(** An entry of ["location"] in a location. *)
Record LocationEntry := {
  entry_region : string;
  entry_voxels : list (list Z)
}.

(** An entry of a .LOCATIONS file. *)
Record Location := {
  location_id : Z;
  location_center : list Z;
  location_location : list LocationEntry
}.

(** ** ConvertARCADE *)

Module ConvertARCADE.

(** *** Sample transform *)

(** [margins]: the margin of each coordinate, as [zip(coords, margins)]
    pairs them. *)
Definition margin_of (margins : Z * Z * Z) (i : coord) : Z :=
  match i with
  | cx => margins.1.1
  | cy => margins.1.2
  | cz => margins.2
  end.

Section Transform.

(** [ProcessSamples.get_step_size], which is not among the sources. *)
Variable get_step_size : list Q → Q.

(** [calculate_sample_transform(df, margins)]: the dicts [steps], [offsets]
    and [bounds], the last one read by coordinate rather than by size name. *)
Definition calculate_sample_transform (df : DataFrame) (margins : Z * Z * Z)
    : (coord → Q) * (coord → npfloat) * (coord → npfloat) :=
  let steps := λ i, get_step_size (column i df) in
  let mins := λ i, Pandas.min (column i df) in
  let maxs := λ i, Pandas.max (column i df) in
  let offsets := λ i,
    np_add (np_add (np_neg (np_div (mins i) (steps i)))
                   (inject_Z (margin_of margins i))) 1 in
  let bounds := λ i,
    np_add (np_add (np_div (np_sub (maxs i) (mins i)) (steps i))
                   (2 * inject_Z (margin_of margins i))) 3 in
  (steps, offsets, bounds).

End Transform.

(** [df[i].divide(step).astype("int32") + offset] on one value of the
    column. *)
Definition transform_value (step : Q) (offset : npfloat) (v : Q) : result Q :=
  t ← astype_int32 (np_div (Some v) step);
  match offset with
  | Some offset => Ok (inject_Z t + offset)%Q
  | None => Raise OutsideModel
  end.

(** [df[i] = ...]: the column written back, row by row. *)
Definition assign (i : coord) (col : list Q) (df : DataFrame) : DataFrame :=
  {| has_region := has_region df; rows := zip_with (set_coord i) col (rows df) |}.

(** [transform_sample_voxels(df, steps, offsets)]. *)
Definition transform_sample_voxels (df : DataFrame) (steps : coord → Q)
    (offsets : coord → npfloat) : result DataFrame :=
  foldl (λ acc i,
           df ← acc;
           col ← traverse (transform_value (steps i) (offsets i)) (column i df);
           Ok (assign i col df))
        (Ok df) coords.

(** *** Validity filter *)

(** [filter_valid_samples(samples)]. *)
Definition filter_valid_samples (samples : DataFrame) : DataFrame :=
  if has_region samples then
    Pandas.groupby_filter Z.le sample_id
      (λ x, bool_decide (len (Pandas.unique (sample_region <$> rows x)) > 1))
      samples
  else samples.

(** *** Criticals and phase *)

Section Criticals.

Variable config : Config.

(** [get_cell_criticals(samples, reference, region="DEFAULT")]. *)
Definition get_cell_criticals (samples : DataFrame) (reference : gmap string Q)
    (region : string) : result (Q * npfloat) :=
  let reference_key :=
    if decide (region = "DEFAULT") then "volume" else "volume." +:+ region in
  volume ← (if decide (is_Some (reference !! reference_key))
            then dict_getitem reference reference_key
            else Ok (inject_Z (len (rows samples))));
  let height := np_sub (Pandas.max (column cz samples)) (Pandas.min (column cz samples)) in
  volume_mu ← dict_getitem (VOLUME_MU config) region;
  volume_sigma ← dict_getitem (VOLUME_SIGMA config) region;
  z_volume ← py_truediv (volume - volume_mu) volume_sigma;
  critical_volume_sigma ← dict_getitem (CRITICAL_VOLUME_SIGMA config) region;
  critical_volume_mu ← dict_getitem (CRITICAL_VOLUME_MU config) region;
  let critical_volume := (z_volume * critical_volume_sigma + critical_volume_mu)%Q in
  height_mu ← dict_getitem (HEIGHT_MU config) region;
  height_sigma ← dict_getitem (HEIGHT_SIGMA config) region;
  let z_height := np_div (np_sub height (Some height_mu)) height_sigma in
  critical_height_sigma ← dict_getitem (CRITICAL_HEIGHT_SIGMA config) region;
  critical_height_mu ← dict_getitem (CRITICAL_HEIGHT_MU config) region;
  let critical_height := np_add (np_mul z_height critical_height_sigma) critical_height_mu in
  Ok (critical_volume, critical_height).

(** [get_cell_regions(samples, reference)]. *)
Definition get_cell_regions (samples : DataFrame) (reference : gmap string Q)
    : result (list CellRegion) :=
  traverse (λ '(region, group),
              criticals ← get_cell_criticals group reference region;
              Ok {| region_region := region;
                    region_voxels := len (rows group);
                    region_criticals := criticals |})
           (groupby_region samples).

End Criticals.

Definition fractions : list Q := [0.25; 1; 1.124; 1.726; 1.969]%Q.
Definition states : list string :=
  ["APOPTOTIC"; "APOPTOTIC"; "PROLIFERATIVE"; "PROLIFERATIVE"; "PROLIFERATIVE"].
Definition phases : list string := ["LATE"; "EARLY"; "G1"; "S"; "G2"].

(** [get_cell_phase(volume, critical_volume)]. *)
Definition get_cell_phase (volume critical_volume : Q) : result (string * string) :=
  let thresholds := (λ fraction, fraction * critical_volume)%Q <$> fractions in
  let index :=
    next ((filter (λ '(ind, thresh), (volume < thresh)%Q) (enumerate thresholds)).*1) (-1) in
  state ← list_getitem states index;
  phase_name ← list_getitem phases index;
  let phase := state +:+ "_" +:+ phase_name in
  Ok (state, phase).

(** *** Records *)

(** [make_location_center(samples)]. *)
Definition make_location_center (samples : DataFrame) : result (list Z) :=
  traverse (λ v, py_int (Pandas.mean (column v samples))) coords.

(** [make_location_voxels(samples)]. *)
Definition make_location_voxels (samples : DataFrame) : list (list Z) :=
  (λ voxel, (λ v, Qtrunc (get_coord v voxel)) <$> coords) <$> rows samples.

(** [convert_to_location(cell_id, samples)]. *)
Definition convert_to_location (cell_id : Z) (samples : DataFrame) : result Location :=
  center ← make_location_center samples;
  let location :=
    if negb (has_region samples) then
      [ {| entry_region := "UNDEFINED"; entry_voxels := make_location_voxels samples |} ]
    else
      (λ '(region, group),
         {| entry_region := region; entry_voxels := make_location_voxels group |})
      <$> groupby_region samples in
  Ok {| location_id := cell_id; location_center := center; location_location := location |}.

Section Conversion.

Variable config : Config.

(** [convert_to_cell(cell_id, samples, reference)]. *)
Definition convert_to_cell (cell_id : Z) (samples : DataFrame)
    (reference : gmap string Q) : result Cell :=
  let volume := len (rows samples) in
  '(critical_volume, critical_height) ← get_cell_criticals config samples reference "DEFAULT";
  '(state, phase) ← get_cell_phase (inject_Z volume) critical_volume;
  regions ← (if has_region samples
             then Some <$> get_cell_regions config samples reference
             else Ok None);
  Ok {| cell_id := cell_id; cell_parent := 0; cell_pop := 1; cell_age := 0;
        cell_divisions := 0; cell_state := state; cell_phase := phase;
        cell_voxels := volume;
        cell_criticals := (critical_volume, critical_height);
        cell_regions := regions |}.

(** The conversion loop of [convert_arcade], over the groups that remain to
    be visited; [i] is the count of [enumerate].  [reference] holds, by cell
    id, the reference row of the key as the dict that [to_dict] makes of it,
    restricted to its numeric fields (the others are never read); a cell
    without a row gets the empty dict. *)
Fixpoint convert_loop (reference : gmap Z (gmap string Q)) (i : Z)
    (samples_by_id : list (Z * DataFrame)) (locations : list Location)
    (cells : list Cell) : result (list Cell * list Location) :=
  match samples_by_id with
  | [] => Ok (cells, locations)
  | (sample_id, group) :: samples_by_id =>
      let sample_reference := default ∅ (reference !! sample_id) in
      cell ← convert_to_cell (i + 1) group sample_reference;
      location ← convert_to_location (i + 1) group;
      convert_loop reference (i + 1) samples_by_id (locations ++ [location]) (cells ++ [cell])
  end.

(** [convert_arcade], from the valid samples to the two lists that are
    saved: the contents of the .CELLS and of the .LOCATIONS file. *)
Definition convert_samples (samples : DataFrame) (reference : gmap Z (gmap string Q))
    : result (list Cell * list Location) :=
  convert_loop reference 0 (groupby_id samples) [] [].

(** [convert_arcade], from the transformed and merged samples on. *)
Definition convert_arcade (samples : DataFrame) (reference : gmap Z (gmap string Q))
    : result (list Cell * list Location) :=
  convert_samples (filter_valid_samples samples) reference.

End Conversion.

(** *** Region merge *)

(** The rows agree on the merge keys [["id", "x", "y", "z"]]. *)
Definition same_voxel (a b : Sample) : Prop :=
  sample_id a = sample_id b ∧
  (sample_x a == sample_x b)%Q ∧ (sample_y a == sample_y b)%Q ∧
  (sample_z a == sample_z b)%Q.

Global Instance same_voxel_dec (a b : Sample) : Decision (same_voxel a b).
Proof. unfold same_voxel. apply _. Defined.

(** A row with its region cell written. *)
Definition with_region (region : string) (r : Sample) : Sample :=
  {| sample_id := sample_id r; sample_x := sample_x r; sample_y := sample_y r;
     sample_z := sample_z r; sample_region := region |}.

(** Lines 140 to 143 of [convert_arcade]:
    [region_samples["region"] = region], then
    [samples.merge(region_samples, on=["id", "x", "y", "z"], how="left")] and
    [samples["region"].fillna("DEFAULT", inplace=True)].  The left merge
    keeps the rows of [samples] in their order, once per matching row of
    [region_samples] and once, without a region, when none matches.  When
    [samples] has a region column of its own, the merge renames both and
    [samples["region"]] raises. *)
Definition merge_region (samples region_samples : DataFrame) (region : string)
    : result DataFrame :=
  if has_region samples then Raise (KeyError "region")
  else
    Ok {| has_region := true;
          rows :=
            left ← rows samples;
            match filter (same_voxel left) (rows region_samples) with
            | [] => [with_region "DEFAULT" left]
            | matches => (λ _, with_region region left) <$> matches
            end |}.

(** *** Setup file *)

(** An element of an [xml.etree.ElementTree] tree: tag, attributes in their
    order, children. *)
#[warning="-register-all"]
Inductive Element :=
  | Elem (tag : string) (attrib : list (string * string)) (children : list Element).

(** [make_setup_file(samples, length, width, height, terms)], up to the tree
    that [ET.indent] and [ET.tostring] then serialise.  [POTTS_TERMS], the
    default of [terms], is in the module that is not among the sources. *)
Definition make_setup_file (samples : DataFrame) (length width height : npfloat)
    (terms : list string) : result Element :=
  height ← py_int height;
  length ← py_int length;
  width ← py_int width;
  let series_attrib :=
    [("name", "ARCADE"); ("interval", "1"); ("start", "0"); ("end", "0");
     ("dt", "1"); ("ticks", "24"); ("ds", "1");
     ("height", pretty height); ("length", pretty length); ("width", pretty width)] in
  let potts :=
    Elem "potts" [] ((λ term, Elem "potts.term" [("id", term)] []) <$> terms) in
  let init := len (Pandas.unique (sample_id <$> rows samples)) in
  let regions :=
    if has_region samples then
      (λ region, Elem "population.region" [("id", region); ("fraction", "0.5")] [])
      <$> Pandas.unique (sample_region <$> rows samples)
    else [] in
  let population := Elem "population" [("id", "X"); ("init", pretty init)] regions in
  let populations := Elem "populations" [] [population] in
  let agents := Elem "agents" [] [populations] in
  Ok (Elem "set" [] [Elem "series" series_attrib [potts; agents]]).

(** *** The whole conversion *)

(** What [convert_arcade] saves, in the order of the calls to [save_json] and
    [save_buffer]. *)
Inductive Saved :=
  | SavedCells (cells : list Cell)
  | SavedLocations (locations : list Location)
  | SavedSetup (setup : Element).

(** Truth value of [region] in [if region:]. *)
Definition region_given (region : option string) : option string :=
  match region with
  | Some region => if decide (region = "") then None else Some region
  | None => None
  end.

(** [convert_arcade], from the loaded samples to the samples that are
    converted (lines 134 to 146): transform, merge with the region samples,
    validity filter.  [region_df] is the table that is loaded when a region
    is given. *)
Definition prepare_samples (samples_df : DataFrame) (steps : coord → Q)
    (offsets : coord → npfloat) (region : option string) (region_df : DataFrame)
    : result DataFrame :=
  samples ← transform_sample_voxels samples_df steps offsets;
  samples ← match region_given region with
            | Some region =>
                region_samples ← transform_sample_voxels region_df steps offsets;
                merge_region samples region_samples region
            | None => Ok samples
            end;
  Ok (filter_valid_samples samples).

Section Whole.

Variable get_step_size : list Q → Q.
Variable config : Config.
(** [POTTS_TERMS] *)
Variable terms : list string.

(** [convert_arcade(key, margins, region, reference)], the tables that it
    loads given and the files that it saves returned, with the exception
    that ended it, if one did. *)
Definition convert_arcade_files (samples_df : DataFrame) (margins : Z * Z * Z)
    (region : option string) (region_df : DataFrame)
    (reference : gmap Z (gmap string Q)) : list Saved * option exn :=
  let '(steps, offsets, bounds) := calculate_sample_transform get_step_size samples_df margins in
  match
    samples ← prepare_samples samples_df steps offsets region region_df;
    '(cells, locations) ← convert_samples config samples reference;
    Ok (samples, cells, locations)
  with
  | Raise e => ([], Some e)
  | Ok (samples, cells, locations) =>
      let saved := [SavedCells cells; SavedLocations locations] in
      match make_setup_file samples (bounds cx) (bounds cy) (bounds cz) terms with
      | Raise e => (saved, Some e)
      | Ok setup => (saved ++ [SavedSetup setup], None)
      end
  end.

End Whole.

End ConvertARCADE.

(** ** CalculateCoefficients *)

Module CalculateCoefficients.

(** [get_location_voxels(location, region=None)], on a location as
    [ConvertARCADE] writes it. *)
Definition get_location_voxels (location : Location) (region : option string)
    : list (list Z) :=
  loc ← location_location location;
  voxel ← entry_voxels loc;
  if decide (ConvertARCADE.region_given region = None ∨ Some (entry_region loc) = region)
  then [voxel] else [].

(** [round(x)] on a float: the nearest integer, the even one on a tie. *)
Definition py_round (q : Q) : Z :=
  let f := Qfloor q in
  let d := (q - inject_Z f)%Q in
  if decide (d < 1 # 2)%Q then f
  else if decide (1 # 2 < d)%Q then f + 1
  else if Z.even f then f else f + 1.

(** A numpy array of three dimensions: the list of its planes, each the list
    of its rows. *)
Abbreviation ndarray := (list (list (list Z))).

(** The functions on arrays return [None] when numpy raises. *)

(** [np.zeros((height, width, length))]; a negative dimension raises
    [ValueError]. *)
Definition zeros (height width length : Z) : option ndarray :=
  if decide (0 ≤ height ∧ 0 ≤ width ∧ 0 ≤ length) then
    Some (replicate (Z.to_nat height)
            (replicate (Z.to_nat width) (replicate (Z.to_nat length) 0)))
  else None.

(** An index on an axis of size [dim]: a negative index counts from the end,
    an index out of range raises [IndexError]. *)
Definition axis_index (dim : nat) (idx : Z) : option nat :=
  let idx := if decide (idx < 0) then idx + Z.of_nat dim else idx in
  if decide (0 ≤ idx < Z.of_nat dim) then Some (Z.to_nat idx) else None.

(** [array[k, j, i] = v]. *)
Definition setitem (array : ndarray) (index : Z * Z * Z) (v : Z) : option ndarray :=
  let '(k, j, i) := index in
  k ← axis_index (length array) k;
  plane ← array !! k;
  j ← axis_index (length plane) j;
  row ← plane !! j;
  i ← axis_index (length row) i;
  Some (<[k := <[j := <[i := v]> row]> plane]> array).

(** [array[tuple(np.transpose(indices))] = vals] with every value equal to
    [v]: the cells are written in the order of the indices. *)
Definition setitems (array : ndarray) (indices : list (Z * Z * Z)) (v : Z)
    : option ndarray :=
  foldl (λ acc index, array ← acc; setitem array index v) (Some array) indices.

(** [array.repeat(scale, axis=0)], [axis=1] and [axis=2]. *)
Definition repeat_axis0 (scale : nat) (array : ndarray) : ndarray :=
  plane ← array; replicate scale plane.
Definition repeat_axis1 (scale : nat) (array : ndarray) : ndarray :=
  (λ plane : list (list Z), row ← plane; replicate scale row) <$> array.
Definition repeat_axis2 (scale : nat) (array : ndarray) : ndarray :=
  (λ plane : list (list Z), (λ row : list Z, v ← row; replicate scale v) <$> plane)
  <$> array.

(** [scale_voxel_array(array, scale)]; a negative count raises
    [ValueError]. *)
Definition scale_voxel_array (array : ndarray) (scale : Z) : option ndarray :=
  if decide (scale < 0) then None
  else
    let n := Z.to_nat scale in
    Some (repeat_axis2 n (repeat_axis1 n (repeat_axis0 n array))).

(** [x, y, z = voxel]: a voxel that is not a triple raises [ValueError]. *)
Definition unpack (voxel : list Z) : option (Z * Z * Z) :=
  match voxel with
  | [x; y; z] => Some (x, y, z)
  | _ => None
  end.

(** [np.min(col)] and [np.max(col)] on a column of integers; an empty column
    raises [ValueError]. *)
Definition np_min (col : list Z) : option Z :=
  match col with
  | [] => None
  | a :: col => Some (foldl Z.min a col)
  end.
Definition np_max (col : list Z) : option Z :=
  match col with
  | [] => None
  | a :: col => Some (foldl Z.max a col)
  end.

(** [make_voxels_array(voxels, scale)].  The mean of an empty voxel list is
    a [nan] that cannot be unpacked ([TypeError]); voxels that are not all
    triples cannot be made an array of or unpacked ([ValueError]). *)
Definition make_voxels_array (voxels : list (list Z)) (scale : Z) : option ndarray :=
  xyz ← mapM unpack voxels;
  let mean := λ col : list Z, Pandas.mean (inject_Z <$> col) in
  center_x ← py_round <$> mean (xyz.*1.*1);
  center_y ← py_round <$> mean (xyz.*1.*2);
  center_z ← py_round <$> mean (xyz.*2);
  let all_xyz_centered :=
    (λ '(x, y, z), (z - center_z, y - center_y, x - center_x)) <$> xyz in
  mins0 ← np_min (all_xyz_centered.*1.*1);
  mins1 ← np_min (all_xyz_centered.*1.*2);
  mins2 ← np_min (all_xyz_centered.*2);
  maxs0 ← np_max (all_xyz_centered.*1.*1);
  maxs1 ← np_max (all_xyz_centered.*1.*2);
  maxs2 ← np_max (all_xyz_centered.*2);
  let height := maxs0 - mins0 + 3 in
  let width := maxs1 - mins1 + 3 in
  let length := maxs2 - mins2 + 3 in
  array ← zeros height width length;
  let all_xyz_offset :=
    (λ '(z, y, x), (z - mins0 + 1, y - mins1 + 1, x - mins2 + 1)) <$> all_xyz_centered in
  array ← setitems array all_xyz_offset 1;
  if decide (scale ≠ 1) then scale_voxel_array array scale else Some array.

End CalculateCoefficients.

(** * Vocabulary of the properties *)

Import ConvertARCADE.

(** The text of [s] before its first underscore: [s.split("_")[0]]. *)
Fixpoint before_underscore (s : string) : string :=
  match s with
  | EmptyString => EmptyString
  | String c s' =>
      if Ascii.eqb c "_"%char then EmptyString else String c (before_underscore s')
  end.

(** The full labels, by index: what [get_cell_phase] formats as its phase. *)
Definition phase_labels : list string :=
  zip_with (λ state phase, state +:+ "_" +:+ phase) states phases.

(** The fraction that [get_cell_phase] pairs, by index, with each label. *)
Definition threshold_fractions : list (string * Q) := zip phase_labels fractions.

(** The set of distinct regions observed in the table for a cell. *)
Definition cell_region_set (df : DataFrame) (cell : Z) : gset string :=
  list_to_set (sample_region <$> filter (λ r, sample_id r = cell) (rows df)).

(** The key under which [get_cell_criticals] looks the volume of a region up
    in the reference of a cell. *)
Definition reference_volume_key (region : string) : string :=
  if decide (region = "DEFAULT") then "volume" else "volume." +:+ region.

(** The raw volume: the reference value when there is one, the voxel count
    otherwise. *)
Definition raw_volume (samples : DataFrame) (reference : gmap string Q)
    (region : string) : Q :=
  default (inject_Z (len (rows samples))) (reference !! reference_volume_key region).

(** The raw height: the extent of the samples along z. *)
Definition raw_height (samples : DataFrame) : npfloat :=
  np_sub (Pandas.max (column cz samples)) (Pandas.min (column cz samples)).

(** The z-score of [raw] in the population, carried over to the critical
    distribution. *)
Definition rescale (raw population_mean population_std critical_mean critical_std : Q) : Q :=
  ((raw - population_mean) / population_std * critical_std + critical_mean)%Q.

(** The statistics of a region are there, and the deviation that divides
    the volume is not zero. *)
Definition stats_defined (config : Config) (region : string) : Prop :=
  is_Some (VOLUME_MU config !! region) ∧
  (∃ sigma, VOLUME_SIGMA config !! region = Some sigma ∧ ¬ (sigma == 0)%Q) ∧
  is_Some (CRITICAL_VOLUME_MU config !! region) ∧
  is_Some (CRITICAL_VOLUME_SIGMA config !! region) ∧
  is_Some (HEIGHT_MU config !! region) ∧
  is_Some (HEIGHT_SIGMA config !! region) ∧
  is_Some (CRITICAL_HEIGHT_MU config !! region) ∧
  is_Some (CRITICAL_HEIGHT_SIGMA config !! region).

(** A group that the loop can convert: it has rows, and the statistics hold
    the whole cell and every region of the group. *)
Definition convertible (config : Config) (samples : DataFrame) : Prop :=
  rows samples ≠ [] ∧
  stats_defined config "DEFAULT" ∧
  (has_region samples = true →
   ∀ region, region ∈ sample_region <$> rows samples → stats_defined config region).

(** The number of voxel triples of a location, over all its entries. *)
Definition location_voxels (location : Location) : nat :=
  sum_list ((λ entry, length (entry_voxels entry)) <$> location_location location).

(** A row after the transform: each coordinate divided by the step of its
    axis, truncated, and moved by the offset of its axis. *)
Definition transformed (steps offset : coord → Q) (r : Sample) : Sample :=
  let scaled i := (inject_Z (Qtrunc (get_coord i r / steps i)) + offset i)%Q in
  {| sample_id := sample_id r;
     sample_x := scaled cx; sample_y := scaled cy; sample_z := scaled cz;
     sample_region := sample_region r |}.

(** *** Tables and statistics of the examples *)

Definition sample (i : Z) (x y z : Q) (region : string) : Sample :=
  {| sample_id := i; sample_x := x; sample_y := y; sample_z := z;
     sample_region := region |}.

(** One cell of five voxels, no region column. *)
Definition five_samples : DataFrame :=
  {| has_region := false;
     rows := [sample 1 1 2 6 ""; sample 1 2 4 7 ""; sample 1 3 6 8 "";
              sample 1 4 8 9 ""; sample 1 5 10 10 ""] |}.

(** Statistics that hold the given regions, each with mean 100 and deviation
    10 in the population, critical mean 200 and critical deviation 30, for
    the volume and for the height. *)
Definition example_config (regions : list string) : Config :=
  let constant (v : Q) : gmap string Q :=
    list_to_map ((λ region, (region, v)) <$> regions) in
  {| VOLUME_MU := constant 100%Q;
     VOLUME_SIGMA := constant 10%Q;
     CRITICAL_VOLUME_MU := constant 200%Q;
     CRITICAL_VOLUME_SIGMA := constant 30%Q;
     HEIGHT_MU := constant 100%Q;
     HEIGHT_SIGMA := constant 10%Q;
     CRITICAL_HEIGHT_MU := constant 200%Q;
     CRITICAL_HEIGHT_SIGMA := constant 30%Q |}.

(** One cell of a thousand voxels. *)
Definition thousand_samples : DataFrame :=
  {| has_region := false; rows := replicate 1000 (sample 1 0 0 0 "") |}.

(** One cell of two voxels, ten apart along z. *)
Definition two_level_samples : DataFrame :=
  {| has_region := false; rows := [sample 1 0 0 0 ""; sample 1 0 0 10 ""] |}.

(** Two cells with regions: cell 1 is seen in three regions, cell 2 in one. *)
Definition two_cells_samples : DataFrame :=
  {| has_region := true;
     rows := [sample 1 1 2 3 "REGION_A"; sample 2 10 11 12 "REGION_C";
              sample 1 4 5 6 "REGION_B"; sample 2 13 14 15 "REGION_C";
              sample 1 7 8 9 "REGION_C"] |}.

(** One cell of two voxels at negative x. *)
Definition negative_samples : DataFrame :=
  {| has_region := false; rows := [sample 1 (-1) 0 0 ""; sample 1 (-2) 0 0 ""] |}.

(** One cell with regions, the nucleus met first. *)
Definition nucleus_first_samples : DataFrame :=
  {| has_region := true;
     rows := [sample 1 1 1 1 "NUCLEUS"; sample 1 1 1 2 "DEFAULT";
              sample 1 1 2 1 "NUCLEUS"] |}.

(** Six cells of one voxel on a grid of steps 2, 3 and 10, each axis
    starting on a multiple of its step. *)
Definition grid_samples : DataFrame :=
  {| has_region := false;
     rows := [sample 1 0 3 10 ""; sample 2 2 15 40 ""; sample 3 6 6 20 "";
              sample 4 4 12 50 ""; sample 5 8 9 30 ""; sample 6 10 18 60 ""] |}.

(** Two voxels whose x, 1 and 3, are not multiples of their step 2. *)
Definition unaligned_samples : DataFrame :=
  {| has_region := false; rows := [sample 1 1 0 10 ""; sample 1 3 3 40 ""] |}.

(** Two voxels at negative x. *)
Definition negative_grid_samples : DataFrame :=
  {| has_region := false; rows := [sample 1 (-3) 0 10 ""; sample 1 (-1) 3 40 ""] |}.

(** *** Vocabulary of the further properties *)

(** The offset and the bound that [calculate_sample_transform] computes for
    an axis of a table that is not empty. *)
Definition transform_offset (get_step_size : list Q → Q) (df : DataFrame)
    (margins : Z * Z * Z) (i : coord) : Q :=
  (- (default 0%Q (Pandas.min (column i df)) / get_step_size (column i df))
   + inject_Z (margin_of margins i) + 1)%Q.

Definition transform_bound (get_step_size : list Q → Q) (df : DataFrame)
    (margins : Z * Z * Z) (i : coord) : Q :=
  ((default 0%Q (Pandas.max (column i df)) - default 0%Q (Pandas.min (column i df)))
     / get_step_size (column i df)
   + 2 * inject_Z (margin_of margins i) + 3)%Q.

(** One axis of the transform as the loop body runs it. *)
Definition transform_axis (steps : coord → Q) (offsets : coord → npfloat) (i : coord)
    (df : DataFrame) : result DataFrame :=
  col ← traverse (transform_value (steps i) (offsets i)) (column i df);
  Ok (assign i col df).

(** The cell has samples of more than one region. *)
Definition valid_cell (df : DataFrame) (cell : Z) : Prop :=
  (2 ≤ size (cell_region_set df cell))%nat.

Global Instance valid_cell_dec df cell : Decision (valid_cell df cell).
Proof. unfold valid_cell. apply _. Defined.

(** The rows of the region table that the left merge pairs with a row. *)
Definition region_matches (region_samples : DataFrame) (left : Sample) : list Sample :=
  filter (same_voxel left) (rows region_samples).

(** The region cell of a row after the merge and [fillna]. *)
Definition merged_region (region_samples : DataFrame) (region : string) (left : Sample)
    : string :=
  if decide (region_matches region_samples left = []) then "DEFAULT" else region.

(** Table with regions: two cells, cell 1 partly in the nucleus, cell 2
    outside of it, and the table of the voxels of the nucleus. *)
Definition plain_cells : DataFrame :=
  {| has_region := false;
     rows := [sample 1 1 1 1 ""; sample 1 2 1 1 ""; sample 2 5 5 5 ""; sample 1 3 1 1 ""] |}.
Definition nucleus_voxels : DataFrame :=
  {| has_region := false; rows := [sample 1 2 1 1 ""; sample 1 3 1 1 ""; sample 3 5 5 5 ""] |}.

(** Reading a setup tree as [xml.etree.ElementTree] does: [element.tag],
    [list(element)], [element.find(tag)], [element.findall(tag)] and
    [element.get(key)]. *)
Definition element_tag (e : Element) : string := match e with Elem tag _ _ => tag end.
Definition element_attrib (e : Element) : list (string * string) :=
  match e with Elem _ attrib _ => attrib end.
Definition element_children (e : Element) : list Element :=
  match e with Elem _ _ children => children end.
Definition findall (tag : string) (e : Element) : list Element :=
  filter (λ child, element_tag child = tag) (element_children e).
Definition find (tag : string) (e : Element) : option Element := head (findall tag e).
Definition get (key : string) (e : Element) : option string :=
  snd <$> head (filter (λ kv, kv.1 = key) (element_attrib e)).

(** The population of a setup file: [set/series/agents/populations/population]. *)
Definition setup_population (setup : Element) : option Element :=
  series ← find "series" setup;
  agents ← find "agents" series;
  populations ← find "populations" agents;
  find "population" populations.

(** The ids of the regions that a population declares. *)
Definition population_regions (population : Element) : list string :=
  omap (get "id") (findall "population.region" population).

(** The regions over the cells of a .CELLS file. *)
Definition cells_regions (cells : list Cell) : list string :=
  cell ← cells; region_region <$> default [] (cell_regions cell).

(** The voxel triple that [make_location_voxels] makes of a row. *)
Definition voxel_of (r : Sample) : list Z := (λ v, Qtrunc (get_coord v r)) <$> coords.

(** The region under which the voxels of a row are listed in a location. *)
Definition listed_region (df : DataFrame) (r : Sample) : string :=
  if has_region df then sample_region r else "UNDEFINED".

(** The coordinate [v] keeps the margin of the axis free on both sides of a
    grid of the given size. *)
Definition within_grid (margins : Z * Z * Z) (size : coord → Z) (i : coord) (v : Z) : Prop :=
  margin_of margins i ≤ v ∧ v + margin_of margins i + 1 ≤ size i.

(** * Properties *)

(** Closes a goal from two order facts on rationals that contradict each
    other, or from a negated strict inequality. *)
Ltac Qorder :=
  match goal with
  | H1 : (?a <= ?b)%Q, H2 : (?b < ?a)%Q |- _ => destruct (Qle_not_lt _ _ H1 H2)
  | H1 : ¬ (?a < ?b)%Q, H2 : (?a < ?b)%Q |- _ => destruct (H1 H2)
  | H : ¬ (?a < ?b)%Q |- (?b <= ?a)%Q => exact (Qnot_lt_le _ _ H)
  | H1 : ¬ (?a < ?b)%Q, H2 : (?a < ?c)%Q, H3 : (?c <= ?b)%Q |- _ =>
      destruct (H1 (Qlt_le_trans _ _ _ H2 H3))
  end.

(** ** The error monad *)

Lemma result_bind_Ok {A B} (f : A → result B) (a : A) : Ok a ≫= f = f a.
Proof. done. Qed.

Lemma traverse_Ok {A B} (f : A → result B) (l : list A) :
  (∀ a, a ∈ l → is_Ok (f a)) →
  ∃ bs, traverse f l = Ok bs ∧ Forall2 (λ a b, f a = Ok b) l bs.
Proof.
  induction l as [|a l IH]; intros Hl; cbn.
  - exists []. by split.
  - destruct (Hl a) as [b Hb]; [by left|].
    destruct IH as (bs & Hbs & Hall); [intros; apply Hl; by right|].
    exists (b :: bs). rewrite Hb. cbn. rewrite Hbs. cbn. split; [done|by constructor].
Qed.

Lemma traverse_fmap {A B} (f : A → result B) (g : A → B) (l : list A) :
  (∀ a, a ∈ l → f a = Ok (g a)) → traverse f l = Ok (g <$> l).
Proof.
  induction l as [|a l IH]; intros Hl; cbn; [done|].
  rewrite Hl by (by left). cbn. rewrite IH by (intros; apply Hl; by right). done.
Qed.

(** ** Truncation *)

Lemma Qtrunc_nonneg q : (0 <= q)%Q → Qtrunc q = Qfloor q.
Proof.
  destruct q as [n d]. unfold Qle, Qtrunc, Qfloor. cbn. intros Hn.
  apply Z.quot_div_nonneg; lia.
Qed.

Lemma Qtrunc_inject_Z n : Qtrunc (inject_Z n) = n.
Proof. unfold Qtrunc. cbn. apply Z.quot_1_r. Qed.

Lemma Qtrunc_le a b : (a <= b)%Q → Qtrunc a ≤ Qtrunc b.
Proof.
  destruct a as [n1 d1], b as [n2 d2]. unfold Qle, Qtrunc. cbn. intros Hle.
  rewrite <-(Z.quot_mul_cancel_r n1 (Z.pos d1) (Z.pos d2)) by lia.
  rewrite <-(Z.quot_mul_cancel_r n2 (Z.pos d2) (Z.pos d1)) by lia.
  rewrite (Z.mul_comm (Z.pos d2) (Z.pos d1)).
  apply Z.quot_le_mono; lia.
Qed.

Lemma Qtrunc_integer q k : (q == inject_Z k)%Q → Qtrunc q = k.
Proof.
  destruct q as [n d]. unfold Qeq, Qtrunc. cbn. intros Heq.
  rewrite Z.mul_1_r in Heq. subst n. apply Z.quot_mul. lia.
Qed.

(** ** pandas: the minimum of a column *)

Section column_min.
Implicit Types col : list Q.

Lemma Qmin_cases a b : (Pandas.Qmin a b = a ∧ (a <= b)%Q) ∨ (Pandas.Qmin a b = b ∧ (b <= a)%Q).
Proof.
  unfold Pandas.Qmin. case_decide; [right|left]; split; try done.
  - by apply Qlt_le_weak.
  - by apply Qnot_lt_le.
Qed.

Lemma foldl_Qmin_spec col a :
  let m := foldl Pandas.Qmin a col in
  m ∈ a :: col ∧ ∀ x, x ∈ a :: col → (m <= x)%Q.
Proof.
  revert a. induction col as [|b col IH]; intros a; cbn.
  - split; [by left|]. intros x ->%list_elem_of_singleton. apply Qle_refl.
  - destruct (IH (Pandas.Qmin a b)) as [Hin Hle]. split.
    + apply elem_of_cons in Hin as [->|Hin]; [|by do 2 right].
      destruct (Qmin_cases a b) as [[-> _]|[-> _]]; [by left|right; by left].
    + intros x Hx. assert (foldl Pandas.Qmin (Pandas.Qmin a b) col <= Pandas.Qmin a b)%Q as Hm
        by (apply Hle; by left).
      apply elem_of_cons in Hx as [->|[->|Hx]%elem_of_cons].
      * apply (Qle_trans _ _ _ Hm). destruct (Qmin_cases a b) as [[-> ?]|[-> ?]]; [apply Qle_refl|done].
      * apply (Qle_trans _ _ _ Hm). destruct (Qmin_cases a b) as [[-> ?]|[-> ?]]; [done|apply Qle_refl].
      * apply Hle. by right.
Qed.

Lemma min_spec col m :
  Pandas.min col = Some m → m ∈ col ∧ ∀ x, x ∈ col → (m <= x)%Q.
Proof.
  destruct col as [|a col]; [done|]. intros [= <-]. apply foldl_Qmin_spec.
Qed.

Lemma min_is_Some col : col ≠ [] → is_Some (Pandas.min col).
Proof. destruct col; [done|]. by eexists. Qed.

(** The minimum of a column mapped through a monotone function. *)
Lemma min_fmap_monotone (f : Q → Q) col lo :
  (∀ a b, (a <= b)%Q → (f a <= f b)%Q) →
  Pandas.min col = Some lo →
  ∃ lo', Pandas.min (f <$> col) = Some lo' ∧ (lo' == f lo)%Q.
Proof.
  intros Hf Hmin. destruct (min_spec _ _ Hmin) as [Hin Hle].
  destruct (min_is_Some (f <$> col)) as [lo' Hmin'].
  { destruct col; [by apply elem_of_nil in Hin|done]. }
  exists lo'. split; [done|].
  destruct (min_spec _ _ Hmin') as [Hin' Hle'].
  apply list_elem_of_fmap in Hin' as (x & -> & Hx).
  apply Qle_antisym.
  - apply Hle'. apply list_elem_of_fmap. eauto.
  - apply Hf, Hle, Hx.
Qed.

End column_min.

(** ** pandas: unique values and groups *)

Section unique.
Context {A : Type} `{EqDecision A}.
Implicit Types l : list A.

Lemma elem_of_unique l x : x ∈ Pandas.unique l ↔ x ∈ l.
Proof.
  induction l as [|a l IH]; cbn; [done|].
  rewrite !elem_of_cons, list_elem_of_filter, IH.
  destruct (decide (x = a)); naive_solver.
Qed.

Lemma NoDup_unique l : NoDup (Pandas.unique l).
Proof.
  induction l as [|a l IH]; cbn; [constructor|].
  constructor.
  - rewrite list_elem_of_filter. naive_solver.
  - by apply NoDup_filter.
Qed.

End unique.

Lemma length_unique_size `{Countable A} (l : list A) :
  length (Pandas.unique l) = size (list_to_set l : gset A).
Proof.
  rewrite <-(size_list_to_set (C:=gset A) (Pandas.unique l)) by apply NoDup_unique.
  f_equal. apply set_eq. intros x. by rewrite !elem_of_list_to_set, elem_of_unique.
Qed.

Section groupby.
Context {K : Type} `{EqDecision K} (le : relation K) `{∀ a b, Decision (le a b)}.
Context (by_ : Sample → K).
Implicit Types df g : DataFrame.

Lemma groupby_keys df :
  (Pandas.groupby le by_ df).*1 = merge_sort le (Pandas.unique (by_ <$> rows df)).
Proof.
  unfold Pandas.groupby. rewrite <-list_fmap_compose. apply list_fmap_id.
Qed.

Lemma elem_of_groupby_keys df k :
  k ∈ (Pandas.groupby le by_ df).*1 ↔ ∃ r, r ∈ rows df ∧ by_ r = k.
Proof.
  rewrite groupby_keys, merge_sort_Permutation, elem_of_unique, list_elem_of_fmap.
  naive_solver.
Qed.

Lemma NoDup_groupby_keys df : NoDup (Pandas.groupby le by_ df).*1.
Proof. rewrite groupby_keys, merge_sort_Permutation. apply NoDup_unique. Qed.

Lemma elem_of_groupby df k g :
  (k, g) ∈ Pandas.groupby le by_ df ↔
  g = select (λ r, by_ r = k) df ∧ ∃ r, r ∈ rows df ∧ by_ r = k.
Proof.
  rewrite <-elem_of_groupby_keys, groupby_keys.
  unfold Pandas.groupby. rewrite list_elem_of_fmap. naive_solver.
Qed.

Lemma groupby_group_nonempty df k g :
  (k, g) ∈ Pandas.groupby le by_ df → rows g ≠ [].
Proof.
  rewrite elem_of_groupby. intros [-> (r & Hr & Hk)] Hnil.
  assert (r ∈ rows (select (λ r, by_ r = k) df)) as Hin.
  { cbn. by apply list_elem_of_filter. }
  rewrite Hnil in Hin. by apply elem_of_nil in Hin.
Qed.

Lemma length_groupby df :
  length (Pandas.groupby le by_ df) = length (Pandas.unique (by_ <$> rows df)).
Proof.
  unfold Pandas.groupby. by rewrite length_fmap, merge_sort_Permutation.
Qed.

(** The groups partition the rows. *)
Lemma length_filter_keys (l : list Sample) (ks : list K) :
  NoDup ks → (∀ r, r ∈ l → by_ r ∈ ks) →
  sum_list ((λ k, length (filter (λ r, by_ r = k) l)) <$> ks) = length l.
Proof.
  intros Hnd. revert l. induction Hnd as [|k ks Hk Hnd IH]; intros l Hl.
  - destruct l as [|r l]; [done|]. specialize (Hl r). rewrite elem_of_nil in Hl.
    destruct Hl. by left.
  - cbn. rewrite <-(filter_app_complement (λ r, by_ r = k) l) at 2.
    rewrite length_app. f_equal.
    rewrite <-(IH (filter (λ r, ¬ by_ r = k) l)).
    + f_equal. apply list_fmap_ext. intros _ k' Hk'%list_elem_of_lookup_2.
      rewrite list_filter_filter.
      erewrite list_filter_iff; [done|]. cbn.
      intros r. split; [|tauto]. intros ->. split; [done|]. by intros ->.
    + intros r [Hr Hin]%list_elem_of_filter. apply Hl in Hin.
      apply elem_of_cons in Hin as [?|?]; done.
Qed.

Lemma length_groupby_groups df :
  sum_list ((λ kg, length (rows kg.2)) <$> Pandas.groupby le by_ df) = length (rows df).
Proof.
  unfold Pandas.groupby. rewrite <-list_fmap_compose. cbn.
  apply (length_filter_keys (rows df)).
  - rewrite <-groupby_keys. apply NoDup_groupby_keys.
  - intros r Hr. rewrite <-groupby_keys. apply elem_of_groupby_keys. eauto.
Qed.

End groupby.

Lemma filter_ext_elem_of {A} (P Q : A → Prop) `{∀ x, Decision (P x)} `{∀ x, Decision (Q x)}
    (l : list A) :
  (∀ x, x ∈ l → P x ↔ Q x) → filter P l = filter Q l.
Proof.
  induction l as [|a l IH]; intros HPQ; [done|].
  rewrite !filter_cons. rewrite IH by (intros; apply HPQ; by right).
  destruct (decide (P a)) as [HP|HP], (decide (Q a)) as [HQ|HQ]; try done.
  - apply HPQ in HP; [done|by left].
  - apply HPQ in HQ; [done|by left].
Qed.

Section groupby_filter.
Context {K : Type} `{EqDecision K} (le : relation K) `{∀ a b, Decision (le a b)}.
Context (by_ : Sample → K) (func : DataFrame → bool).

Lemma groupby_filter_rows df :
  rows (Pandas.groupby_filter le by_ func df) =
  filter (λ r, func (select (λ r', by_ r' = by_ r) df) = true) (rows df).
Proof.
  unfold Pandas.groupby_filter. cbn. apply filter_ext_elem_of. intros r Hr.
  rewrite list_elem_of_fmap. split.
  - intros ([k g] & -> & [Hf Hg]%list_elem_of_filter). cbn in *.
    apply elem_of_groupby in Hg as [-> _]. done.
  - intros Hf. exists (by_ r, select (λ r', by_ r' = by_ r) df). split; [done|].
    apply list_elem_of_filter. split; [done|]. apply elem_of_groupby. eauto.
Qed.

End groupby_filter.

(** ** The order of region names *)

Lemma string_compare_trans a b c :
  String.compare a b ≠ Gt → String.compare b c ≠ Gt → String.compare a c ≠ Gt.
Proof.
  revert b c. induction a as [|x a IH]; intros [|y b] [|z c]; cbn; try done.
  unfold Ascii.compare.
  destruct (N.compare_spec (N_of_ascii x) (N_of_ascii y)) as [Hxy|Hxy|Hxy];
    destruct (N.compare_spec (N_of_ascii y) (N_of_ascii z)) as [Hyz|Hyz|Hyz];
    try done; intros Hab Hbc.
  - rewrite Hxy, Hyz, N.compare_refl. by eapply IH.
  - rewrite Hxy. by apply N.compare_lt_iff in Hyz as ->.
  - rewrite <-Hyz. by apply N.compare_lt_iff in Hxy as ->.
  - assert (N_of_ascii x < N_of_ascii z)%N as ->%N.compare_lt_iff by lia. done.
Qed.

Global Instance str_le_total : Total Pandas.str_le.
Proof. intros a b. apply String.leb_total. Qed.

Global Instance str_le_trans : Transitive Pandas.str_le.
Proof.
  intros a b c. unfold Pandas.str_le, String.leb. intros Hab Hbc.
  pose proof (string_compare_trans a b c) as H.
  destruct (String.compare a b), (String.compare b c), (String.compare a c);
    try done; exfalso; by apply H.
Qed.

Global Instance str_le_antisym : AntiSymm (=) Pandas.str_le.
Proof. intros a b. apply String.leb_antisym. Qed.

(** The keys of the groups by region: ascending, without repetition, and
    exactly the regions of the rows. *)
Lemma groupby_region_keys df :
  let keys := (groupby_region df).*1 in
  StronglySorted Pandas.str_le keys ∧ NoDup keys ∧
  ∀ region, region ∈ keys ↔ region ∈ sample_region <$> rows df.
Proof.
  cbn. split; [|split].
  - unfold groupby_region. rewrite groupby_keys. apply StronglySorted_merge_sort; apply _.
  - apply NoDup_groupby_keys.
  - intros region. unfold groupby_region. rewrite elem_of_groupby_keys, list_elem_of_fmap.
    naive_solver.
Qed.

(** ** The classifier *)

Lemma get_cell_phase_cases volume critical_volume :
  get_cell_phase volume critical_volume ∈
    (λ '(state, phase), Ok (state, state +:+ "_" +:+ phase)) <$> zip states phases.
Proof.
  unfold get_cell_phase. cbn.
  repeat (case_decide; [cbn; set_solver|]). cbn. set_solver.
Qed.

(** C1: with the thresholds of the code and a critical volume of 1000, the
    volumes 0 and 249 are classified APOPTOTIC_LATE, 250 APOPTOTIC_EARLY and
    2000 PROLIFERATIVE_G2; whatever the volumes, the classifier returns, the
    state is the text of the phase before its first underscore, and the
    phase is one of the full labels. *)
Theorem get_cell_phase_boundaries :
  get_cell_phase 0 1000 = Ok ("APOPTOTIC", "APOPTOTIC_LATE") ∧
  get_cell_phase 249 1000 = Ok ("APOPTOTIC", "APOPTOTIC_LATE") ∧
  get_cell_phase 250 1000 = Ok ("APOPTOTIC", "APOPTOTIC_EARLY") ∧
  get_cell_phase 2000 1000 = Ok ("PROLIFERATIVE", "PROLIFERATIVE_G2") ∧
  ∀ volume critical_volume, ∃ state phase,
    get_cell_phase volume critical_volume = Ok (state, phase) ∧
    state = before_underscore phase ∧ phase ∈ phase_labels.
Proof.
  repeat split; try reflexivity.
  intros volume critical_volume.
  pose proof (get_cell_phase_cases volume critical_volume) as H. cbn in H.
  repeat (apply elem_of_cons in H as [-> | H];
          [eexists _, _; split; [reflexivity|split; [reflexivity|cbn; set_solver]]|]).
  by apply elem_of_nil in H.
Qed.

(** C5, as the code has it: the fractions are 0.25, 1, 1.124, 1.726 and
    1.969, by label; the fraction of APOPTOTIC_EARLY is 1: a volume is
    classified APOPTOTIC_EARLY exactly from a quarter of the critical volume
    up to the critical volume itself, and PROLIFERATIVE_G1 starts there. *)
Theorem threshold_fractions_of_the_code :
  threshold_fractions =
    [("APOPTOTIC_LATE", 0.25%Q); ("APOPTOTIC_EARLY", 1%Q);
     ("PROLIFERATIVE_G1", 1.124%Q); ("PROLIFERATIVE_S", 1.726%Q);
     ("PROLIFERATIVE_G2", 1.969%Q)] ∧
  (∀ volume critical_volume,
     get_cell_phase volume critical_volume = Ok ("APOPTOTIC", "APOPTOTIC_EARLY") ↔
     (0.25 * critical_volume <= volume)%Q ∧ (volume < 1 * critical_volume)%Q) ∧
  (∀ volume critical_volume,
     (0 <= critical_volume)%Q →
     get_cell_phase volume critical_volume = Ok ("PROLIFERATIVE", "PROLIFERATIVE_G1") ↔
     (1 * critical_volume <= volume)%Q ∧ (volume < 1.124 * critical_volume)%Q).
Proof.
  split; [reflexivity|]. split.
  - intros volume critical_volume. unfold get_cell_phase. cbn.
    repeat case_decide; cbn; (split; [intros ?|intros [? ?]]); simplify_eq;
      first [ done | Qorder | split; first [done | Qorder] ].
  - intros volume critical_volume Hcv. unfold get_cell_phase. cbn.
    assert (0.25 * critical_volume <= 1 * critical_volume)%Q as Hle.
    { apply Qmult_le_compat_r; [discriminate|done]. }
    repeat case_decide; cbn; (split; [intros ?|intros [? ?]]); simplify_eq;
      first [ done | Qorder | split; first [done | Qorder] | exfalso; Qorder ].
Qed.

(** C5 at the critical volume itself: 1000 of 1000 is PROLIFERATIVE_G1. *)
Lemma threshold_fractions_of_the_code_witness :
  get_cell_phase 1000 1000 = Ok ("PROLIFERATIVE", "PROLIFERATIVE_G1") ↔
  (1 * 1000 <= 1000)%Q ∧ (1000 < 1.124 * 1000)%Q.
Proof.
  apply (proj2 (proj2 threshold_fractions_of_the_code) 1000%Q 1000%Q). discriminate.
Defined.

(** C5, a counterexample to the statement of the specification: the code
    pairs APOPTOTIC_EARLY with the fraction 1, which is not 0.90; with a
    critical volume of 1000 the volume 950, above 0.90 of it, is still
    APOPTOTIC_EARLY. *)
Lemma apoptotic_early_fraction_is_one :
  threshold_fractions !! 1%nat = Some ("APOPTOTIC_EARLY", 1%Q) ∧
  ¬ (1 == 0.90)%Q ∧
  (0.90 * 1000 <= 950)%Q ∧
  get_cell_phase 950 1000 = Ok ("APOPTOTIC", "APOPTOTIC_EARLY").
Proof. repeat split; done. Qed.

(** ** Critical values *)

Lemma get_cell_criticals_defined config samples reference region pm ps cm cs hm hs chm chs :
  VOLUME_MU config !! region = Some pm →
  VOLUME_SIGMA config !! region = Some ps →
  CRITICAL_VOLUME_MU config !! region = Some cm →
  CRITICAL_VOLUME_SIGMA config !! region = Some cs →
  HEIGHT_MU config !! region = Some hm →
  HEIGHT_SIGMA config !! region = Some hs →
  CRITICAL_HEIGHT_MU config !! region = Some chm →
  CRITICAL_HEIGHT_SIGMA config !! region = Some chs →
  ¬ (ps == 0)%Q →
  get_cell_criticals config samples reference region =
    Ok (rescale (raw_volume samples reference region) pm ps cm cs,
        np_add (np_mul (np_div (np_sub (raw_height samples) (Some hm)) hs) chs) chm).
Proof.
  intros Hpm Hps Hcm Hcs Hhm Hhs Hchm Hchs Hnz.
  unfold get_cell_criticals, raw_volume, reference_volume_key, dict_getitem, py_truediv.
  cbv zeta. rewrite Hpm, Hps, Hcm, Hcs, Hhm, Hhs, Hchm, Hchs.
  destruct (reference !! _) as [v|] eqn:Hv; cbn.
  - rewrite decide_True by eauto. cbn. rewrite decide_False by done. done.
  - rewrite decide_False by (intros [? ?]; done). cbn. rewrite decide_False by done. done.
Qed.

(** C2: when the statistics of the region are there (and the population
    deviation is not zero), the critical volume returned is
    ((raw - population_mean) / population_std) * critical_std + critical_mean,
    where raw is the volume that the reference holds for the region
    (["volume"] for the whole cell, ["volume.<region>"] otherwise) when it
    holds one, and the number of rows of the group otherwise; with the
    statistics 100, 10, 200, 30 and raw = 1000 this is 2900. *)
Theorem get_cell_critical_volume config samples reference region pm ps cm cs :
  VOLUME_MU config !! region = Some pm →
  VOLUME_SIGMA config !! region = Some ps →
  CRITICAL_VOLUME_MU config !! region = Some cm →
  CRITICAL_VOLUME_SIGMA config !! region = Some cs →
  is_Some (HEIGHT_MU config !! region) →
  is_Some (HEIGHT_SIGMA config !! region) →
  is_Some (CRITICAL_HEIGHT_MU config !! region) →
  is_Some (CRITICAL_HEIGHT_SIGMA config !! region) →
  ¬ (ps == 0)%Q →
  ∃ raw critical_height,
    match reference !! (if decide (region = "DEFAULT") then "volume"
                        else "volume." +:+ region) with
    | Some volume => raw = volume
    | None => raw = inject_Z (Z.of_nat (length (rows samples)))
    end ∧
    get_cell_criticals config samples reference region =
      Ok (((raw - pm) / ps * cs + cm)%Q, critical_height) ∧
    ((pm == 100)%Q → (ps == 10)%Q → (cm == 200)%Q → (cs == 30)%Q → (raw == 1000)%Q →
     ((raw - pm) / ps * cs + cm == 2900)%Q).
Proof.
  intros Hpm Hps Hcm Hcs [hm Hhm] [hs Hhs] [chm Hchm] [chs Hchs] Hnz.
  exists (raw_volume samples reference region). eexists. split; [|split].
  - unfold raw_volume, reference_volume_key. by destruct (reference !! _).
  - by eapply get_cell_criticals_defined.
  - intros -> -> -> -> ->. reflexivity.
Qed.

(** C2 on a thousand samples of the region REGION. *)
Lemma get_cell_critical_volume_witness :
  ∃ critical_volume critical_height,
    get_cell_criticals (example_config ["REGION"]) thousand_samples ∅ "REGION" =
      Ok (critical_volume, critical_height) ∧ (critical_volume == 2900)%Q.
Proof.
  destruct (get_cell_critical_volume (example_config ["REGION"]) thousand_samples ∅
              "REGION" 100 10 200 30) as (raw & ch & Hraw & Heq & Hval);
    try done; try (by eexists).
  eexists _, _. split; [exact Heq|]. vm_compute in Hraw. subst raw. by apply Hval.
Defined.

Lemma reference_volume_key_not_height region :
  "height" ≠ reference_volume_key region ∧
  "height." +:+ region ≠ reference_volume_key region.
Proof. unfold reference_volume_key. case_decide; split; cbn; discriminate. Qed.

Lemma get_cell_criticals_insert config samples reference region key h :
  key ≠ reference_volume_key region →
  get_cell_criticals config samples (<[key := h]> reference) region =
  get_cell_criticals config samples reference region.
Proof.
  intros Hne. unfold get_cell_criticals. cbv zeta.
  fold (reference_volume_key region). unfold dict_getitem.
  rewrite lookup_insert_ne by done.
  destruct (reference !! _); cbn;
    [rewrite !decide_True by eauto|rewrite !decide_False by (intros [? ?]; done)]; done.
Qed.

(** C4, what the code does instead: a height that the reference holds, under
    ["height"] or under ["height.<region>"], changes nothing of what
    [get_cell_criticals] returns.  On two samples ten apart along z, with a
    reference height of 5 and the statistics 100, 10, 200, 30, the critical
    height is that of the raw height 10, and not that of 5. *)
Theorem get_cell_criticals_ignores_reference_height :
  (∀ config samples reference region h,
     get_cell_criticals config samples (<["height" := h]> reference) region =
       get_cell_criticals config samples reference region ∧
     get_cell_criticals config samples (<["height." +:+ region := h]> reference) region =
       get_cell_criticals config samples reference region) ∧
  ∃ critical_volume critical_height,
    get_cell_criticals (example_config ["DEFAULT"]) two_level_samples
      {["height" := 5%Q]} "DEFAULT" = Ok (critical_volume, Some critical_height) ∧
    (critical_height == rescale 10 100 10 200 30)%Q ∧
    ¬ (critical_height == rescale 5 100 10 200 30)%Q.
Proof.
  split.
  - intros. split; apply get_cell_criticals_insert, reference_volume_key_not_height.
  - eexists _, _. split; [reflexivity|]. split; done.
Qed.

(** C6: when the region is missing from one of the eight statistic mappings
    (mean or deviation, population or critical, volume or height),
    [get_cell_criticals] raises and returns no value: a [KeyError] for the
    region, unless the division by a zero deviation of the volume raised
    before the missing key was read. *)
Theorem get_cell_criticals_missing_statistic config samples reference region :
  VOLUME_MU config !! region = None ∨ VOLUME_SIGMA config !! region = None ∨
  CRITICAL_VOLUME_MU config !! region = None ∨
  CRITICAL_VOLUME_SIGMA config !! region = None ∨
  HEIGHT_MU config !! region = None ∨ HEIGHT_SIGMA config !! region = None ∨
  CRITICAL_HEIGHT_MU config !! region = None ∨
  CRITICAL_HEIGHT_SIGMA config !! region = None →
  get_cell_criticals config samples reference region = Raise (KeyError region) ∨
  get_cell_criticals config samples reference region = Raise ZeroDivisionError.
Proof.
  intros Hmissing.
  unfold get_cell_criticals, dict_getitem, py_truediv. cbv zeta.
  destruct (reference !! _) as [v|] eqn:Hv; cbn;
    [rewrite decide_True by eauto
    |rewrite decide_False by (intros [? ?]; done)]; cbn.
  all: repeat (match goal with
               | |- context [@lookup _ _ (gmap string Q) _ ?r ?m] =>
                   destruct (m !! r) eqn:?
               end; cbn; auto);
       repeat (case_decide; cbn; auto).
  all: intuition congruence.
Qed.

(** C6 on statistics that hold DEFAULT only, asked for NUCLEUS. *)
Lemma get_cell_criticals_missing_statistic_witness :
  get_cell_criticals (example_config ["DEFAULT"]) five_samples ∅ "NUCLEUS"
    = Raise (KeyError "NUCLEUS") ∨
  get_cell_criticals (example_config ["DEFAULT"]) five_samples ∅ "NUCLEUS"
    = Raise ZeroDivisionError.
Proof.
  apply get_cell_criticals_missing_statistic. left. reflexivity.
Defined.

(** ** Validity filter *)

(** C7: on a table with a region column, [filter_valid_samples] returns, in
    their original order, exactly the rows of the cells whose set of
    distinct regions in the table has at least two elements (so every row of
    a cell with at most one region is dropped); a table without a region
    column is returned unchanged. *)
Theorem filter_valid_samples_keeps_multi_region_cells df :
  (has_region df = true →
   filter_valid_samples df =
     {| has_region := true;
        rows := filter (λ r, (2 ≤ size (cell_region_set df (sample_id r)))%nat) (rows df) |}) ∧
  (has_region df = false → filter_valid_samples df = df).
Proof.
  unfold filter_valid_samples. split; intros Hreg; rewrite Hreg; [|done].
  pose proof (groupby_filter_rows Z.le sample_id
    (λ x, bool_decide (len (Pandas.unique (sample_region <$> rows x)) > 1)) df) as Hrows.
  destruct (Pandas.groupby_filter _ _ _ df) as [hr rs] eqn:Heq.
  assert (hr = true) as ->.
  { unfold Pandas.groupby_filter, select in Heq. by simplify_eq. }
  cbn in Hrows. rewrite Hrows. f_equal.
  apply list_filter_iff. intros r. rewrite bool_decide_eq_true.
  unfold len, cell_region_set. rewrite <-length_unique_size. cbn. lia.
Qed.

(** C7 on a cell of three regions and a cell of one. *)
Lemma filter_valid_samples_keeps_multi_region_cells_witness :
  filter_valid_samples two_cells_samples =
    {| has_region := true;
       rows := [sample 1 1 2 3 "REGION_A"; sample 1 4 5 6 "REGION_B";
                sample 1 7 8 9 "REGION_C"] |}.
Proof.
  rewrite (proj1 (filter_valid_samples_keeps_multi_region_cells two_cells_samples) eq_refl).
  reflexivity.
Defined.

(** ** Locations *)

Lemma mean_nonempty (col : list Q) :
  col ≠ [] → Pandas.mean col = Some (Pandas.sum col / inject_Z (len col))%Q.
Proof. by destruct col. Qed.

(** C8, as the code has it: for a group that is not empty and has no region
    column, the center is the mean of each coordinate truncated toward zero
    by [int] (the floor of the mean when the mean is not negative), and the
    location list is one entry of region UNDEFINED whose voxels are the
    (x, y, z) of the rows, in row order, each coordinate through [int] (which
    leaves an integer as it is); on the five samples the center is
    (3, 6, 8). *)
Theorem convert_to_location_without_regions cell_id samples :
  has_region samples = false →
  rows samples ≠ [] →
  let mean := λ v,
    (Pandas.sum (column v samples) / inject_Z (Z.of_nat (length (rows samples))))%Q in
  convert_to_location cell_id samples =
    Ok {| location_id := cell_id;
          location_center := [Qtrunc (mean cx); Qtrunc (mean cy); Qtrunc (mean cz)];
          location_location :=
            [ {| entry_region := "UNDEFINED";
                 entry_voxels :=
                   (λ r, [Qtrunc (sample_x r); Qtrunc (sample_y r); Qtrunc (sample_z r)])
                   <$> rows samples |} ] |} ∧
  (∀ v, (0 <= mean v)%Q → Qtrunc (mean v) = Qfloor (mean v)) ∧
  (∀ n, Qtrunc (inject_Z n) = n) ∧
  convert_to_location cell_id five_samples =
    Ok {| location_id := cell_id;
          location_center := [3; 6; 8];
          location_location :=
            [ {| entry_region := "UNDEFINED";
                 entry_voxels := [[1; 2; 6]; [2; 4; 7]; [3; 6; 8]; [4; 8; 9]; [5; 10; 10]] |} ]
       |}.
Proof.
  intros Hreg Hrows mean. split; [|split; [|split]].
  - unfold convert_to_location, make_location_center. rewrite Hreg. cbn.
    rewrite !mean_nonempty by (unfold column; by destruct (rows samples)).
    cbn. unfold column, len. rewrite !length_fmap. done.
  - intros v. apply Qtrunc_nonneg.
  - apply Qtrunc_inject_Z.
  - reflexivity.
Qed.

(** C8 on the five samples. *)
Lemma convert_to_location_without_regions_witness :
  convert_to_location 10 five_samples =
    Ok {| location_id := 10;
          location_center := [3; 6; 8];
          location_location :=
            [ {| entry_region := "UNDEFINED";
                 entry_voxels := [[1; 2; 6]; [2; 4; 7]; [3; 6; 8]; [4; 8; 9]; [5; 10; 10]] |} ]
       |}.
Proof.
  apply (convert_to_location_without_regions 10 five_samples); [reflexivity|discriminate].
Defined.

(** C8, a counterexample to the statement of the specification: on two
    voxels with x = -1 and x = -2 the center has x = -1, and the floor of the
    mean -3/2 is -2. *)
Lemma convert_to_location_center_truncates :
  (∃ location,
     convert_to_location 1 negative_samples = Ok location ∧
     location_center location = [-1; 0; 0]) ∧
  Qfloor <$> Pandas.mean (column cx negative_samples) = Some (-2).
Proof. split; [eexists; split|]; reflexivity. Qed.

(** ** Cells, locations and the conversion loop *)

Lemma get_cell_criticals_is_Ok config samples reference region :
  stats_defined config region → is_Ok (get_cell_criticals config samples reference region).
Proof.
  intros ([? ?] & (? & ? & ?) & [? ?] & [? ?] & [? ?] & [? ?] & [? ?] & [? ?]).
  eexists. by eapply get_cell_criticals_defined.
Qed.

Lemma get_cell_phase_is_Ok volume critical_volume :
  is_Ok (get_cell_phase volume critical_volume).
Proof.
  pose proof (get_cell_phase_cases volume critical_volume) as H.
  apply list_elem_of_fmap in H as ([? ?] & -> & _). by eexists.
Qed.

Lemma get_cell_regions_Ok config samples reference :
  (∀ region, region ∈ sample_region <$> rows samples → stats_defined config region) →
  ∃ regions,
    get_cell_regions config samples reference = Ok regions ∧
    region_region <$> regions = (groupby_region samples).*1 ∧
    region_voxels <$> regions = (λ kg, len (rows kg.2)) <$> groupby_region samples.
Proof.
  intros Hstats. unfold get_cell_regions.
  match goal with
  | |- context [traverse ?f ?l] => destruct (traverse_Ok f l) as (regions & -> & Hall)
  end.
  - intros [region group] Hin.
    destruct (get_cell_criticals_is_Ok config group reference region) as [c Hc].
    + apply Hstats. apply groupby_region_keys. apply list_elem_of_fmap.
      by exists (region, group).
    + rewrite Hc. by eexists.
  - exists regions. split; [done|].
    induction Hall as [|[region group] b ? ? Hb ? [IH1 IH2]]; [done|].
    cbn. rewrite IH1, IH2.
    destruct (get_cell_criticals config group reference region); by simplify_eq/=.
Qed.

Lemma convert_to_cell_Ok config new_id samples reference :
  stats_defined config "DEFAULT" →
  (has_region samples = true →
   ∀ region, region ∈ sample_region <$> rows samples → stats_defined config region) →
  ∃ cell,
    convert_to_cell config new_id samples reference = Ok cell ∧
    cell_id cell = new_id ∧
    cell_voxels cell = len (rows samples) ∧
    (if has_region samples
     then ∃ regions, cell_regions cell = Some regions ∧
                     region_region <$> regions = (groupby_region samples).*1
     else cell_regions cell = None).
Proof.
  intros Hdefault Hregions. unfold convert_to_cell.
  destruct (get_cell_criticals_is_Ok config samples reference "DEFAULT") as [[cv ch] ->];
    [done|]. cbn.
  destruct (get_cell_phase_is_Ok (inject_Z (len (rows samples))) cv) as [[state phase] ->].
  cbn. destruct (has_region samples) eqn:Hreg.
  - destruct (get_cell_regions_Ok config samples reference) as (regions & -> & Hnames & _);
      [by apply Hregions|]. cbn. eexists. repeat split; cbn; eauto.
  - cbn. eexists. repeat split; done.
Qed.

Lemma make_location_center_Ok samples :
  rows samples ≠ [] → is_Ok (make_location_center samples).
Proof.
  intros Hrows. unfold make_location_center. cbn.
  rewrite !mean_nonempty by (unfold column; by destruct (rows samples)). by eexists.
Qed.

Lemma length_make_location_voxels samples :
  length (make_location_voxels samples) = length (rows samples).
Proof. unfold make_location_voxels. by rewrite length_fmap. Qed.

Lemma convert_to_location_Ok new_id samples :
  rows samples ≠ [] →
  ∃ location,
    convert_to_location new_id samples = Ok location ∧
    location_id location = new_id ∧
    entry_region <$> location_location location =
      (if has_region samples then (groupby_region samples).*1 else ["UNDEFINED"]) ∧
    location_voxels location = length (rows samples).
Proof.
  intros Hrows. unfold convert_to_location.
  destruct (make_location_center_Ok samples Hrows) as [center ->]. cbn.
  eexists. split; [done|]. split; [done|]. unfold location_voxels. cbn.
  destruct (has_region samples); cbn.
  - split.
    + rewrite <-!list_fmap_compose. apply list_fmap_ext. by intros _ [? ?] _.
    + rewrite <-(length_groupby_groups Pandas.str_le sample_region samples).
      rewrite <-list_fmap_compose. f_equal. apply list_fmap_ext. intros _ [? ?] _. cbn.
      apply length_make_location_voxels.
  - split; [done|]. rewrite length_make_location_voxels. lia.
Qed.

Lemma example_config_defined regions region :
  region ∈ regions → stats_defined (example_config regions) region.
Proof.
  intros Hin.
  assert (∀ v : Q, (list_to_map ((λ region, (region, v)) <$> regions) : gmap string Q)
                     !! region = Some v) as Hlookup.
  { intros v. apply elem_of_list_to_map_1'.
    - intros v' (r & [= _ ->] & _)%list_elem_of_fmap. done.
    - apply list_elem_of_fmap. by exists region. }
  unfold stats_defined, example_config; cbn. rewrite !Hlookup.
  repeat split; eauto. eexists. split; [done|]. discriminate.
Qed.

Section conversion_loop.
Context (config : Config) (reference : gmap Z (gmap string Q)).

Lemma convert_loop_Ok groups i locations cells :
  (∀ kg, kg ∈ groups → convertible config kg.2) →
  ∃ cells' locations',
    convert_loop config reference i groups locations cells =
      Ok (cells ++ cells', locations ++ locations') ∧
    length cells' = length groups ∧
    length locations' = length groups ∧
    ∀ j, (j < length groups)%nat →
      ∃ kg cell location,
        groups !! j = Some kg ∧
        cells' !! j = Some cell ∧ locations' !! j = Some location ∧
        cell_id cell = i + Z.of_nat j + 1 ∧
        location_id location = i + Z.of_nat j + 1 ∧
        cell_voxels cell = len (rows kg.2) ∧
        location_voxels location = length (rows kg.2).
Proof.
  revert i locations cells.
  induction groups as [|[sample_id group] groups IH]; intros i locations cells Hgroups;
    cbn [convert_loop].
  - exists [], []. rewrite !app_nil_r. repeat split. intros j Hj. cbn in Hj. lia.
  - destruct (Hgroups (sample_id, group)) as (Hrows & Hdefault & Hregions); [by left|].
    destruct (convert_to_cell_Ok config (i + 1) group
                (default ∅ (reference !! sample_id)) Hdefault Hregions)
      as (cell & -> & Hcid & Hvoxels & _). rewrite result_bind_Ok.
    destruct (convert_to_location_Ok (i + 1) group Hrows)
      as (location & -> & Hlid & _ & Hcount). rewrite result_bind_Ok.
    destruct (IH (i + 1) (locations ++ [location]) (cells ++ [cell]))
      as (cells' & locations' & -> & Hlc & Hll & Hall); [intros; apply Hgroups; by right|].
    exists (cell :: cells'), (location :: locations').
    rewrite <-!app_assoc. cbn.
    split; [done|]. split; [congruence|]. split; [congruence|].
    intros [|j] Hj.
    + exists (sample_id, group), cell, location. repeat split; [lia..|done|done].
    + destruct (Hall j) as (kg & c & l & ? & ? & ? & ? & ? & ? & ?); [lia|].
      exists kg, c, l. repeat split; [done..|lia|lia|done|done].
Qed.

End conversion_loop.

(** C9: when the statistics hold the whole cell and the regions of the
    table, the conversion of a table with N distinct cell ids returns N cell
    records and N location records; the i-th cell and the i-th location
    (from 0) are those of the i-th group of the table by cell id, both carry
    the id i + 1, whatever the id of the samples of the group; and the voxel
    count of the i-th cell is the number of voxel triples over the entries
    of the i-th location.  [convert_arcade] runs this on the filtered
    table. *)
Theorem convert_samples_dense_ids config samples reference :
  stats_defined config "DEFAULT" →
  (has_region samples = true →
   ∀ region, region ∈ sample_region <$> rows samples → stats_defined config region) →
  let N := size (list_to_set (sample_id <$> rows samples) : gset Z) in
  ∃ cells locations,
    convert_samples config samples reference = Ok (cells, locations) ∧
    length cells = N ∧
    length locations = N ∧
    ∀ i, (i < N)%nat →
      ∃ original_id group cell location,
        groupby_id samples !! i = Some (original_id, group) ∧
        cells !! i = Some cell ∧ locations !! i = Some location ∧
        cell_id cell = Z.of_nat i + 1 ∧
        location_id location = Z.of_nat i + 1 ∧
        cell_voxels cell = Z.of_nat (length (rows group)) ∧
        cell_voxels cell = Z.of_nat (location_voxels location).
Proof.
  intros Hdefault Hregions N. unfold convert_samples.
  assert (length (groupby_id samples) = N) as HN.
  { unfold groupby_id. rewrite length_groupby. apply length_unique_size. }
  destruct (convert_loop_Ok config reference (groupby_id samples) 0 [] [])
    as (cells & locations & -> & Hlc & Hll & Hall).
  - intros [k g] Hin. cbn. split; [by eapply groupby_group_nonempty|split; [done|]].
    apply elem_of_groupby in Hin as [-> _]. cbn.
    intros Hreg region Hin. apply Hregions; [done|].
    apply list_elem_of_fmap in Hin as (r' & -> & Hr'%list_elem_of_filter).
    apply list_elem_of_fmap. exists r'. tauto.
  - exists cells, locations. cbn. rewrite Hlc, Hll, HN. repeat split.
    intros i Hi.
    destruct (Hall i) as ([k g] & c & l & ? & ? & ? & ? & ? & Hc & Hl); [lia|].
    exists k, g, c, l. cbn in Hc, Hl. rewrite Hl.
    repeat split; [done..|lia|lia|done|done].
Qed.

(** C9 on the two cells with regions. *)
Lemma convert_samples_dense_ids_witness :
  ∃ cells locations,
    convert_samples (example_config ["DEFAULT"; "REGION_A"; "REGION_B"; "REGION_C"])
      two_cells_samples ∅ = Ok (cells, locations) ∧
    length cells = 2%nat ∧
    length locations = 2%nat ∧
    ∀ i, (i < 2)%nat →
      ∃ original_id group cell location,
        groupby_id two_cells_samples !! i = Some (original_id, group) ∧
        cells !! i = Some cell ∧ locations !! i = Some location ∧
        cell_id cell = Z.of_nat i + 1 ∧
        location_id location = Z.of_nat i + 1 ∧
        cell_voxels cell = Z.of_nat (length (rows group)) ∧
        cell_voxels cell = Z.of_nat (location_voxels location).
Proof.
  apply (convert_samples_dense_ids
           (example_config ["DEFAULT"; "REGION_A"; "REGION_B"; "REGION_C"])
           two_cells_samples ∅).
  - apply example_config_defined. set_solver.
  - intros _ region Hin. apply example_config_defined. cbn in Hin. set_solver.
Defined.

(** C10, as the code has it: for a group with regions, the region records of
    the cell and the entries of the location list the regions of the group
    in the same order, which is the ascending order of the names (that of
    [groupby]), each region once. *)
Theorem regions_in_ascending_order config new_id samples reference :
  has_region samples = true →
  rows samples ≠ [] →
  stats_defined config "DEFAULT" →
  (∀ region, region ∈ sample_region <$> rows samples → stats_defined config region) →
  ∃ cell location regions,
    convert_to_cell config new_id samples reference = Ok cell ∧
    convert_to_location new_id samples = Ok location ∧
    cell_regions cell = Some regions ∧
    let names := region_region <$> regions in
    entry_region <$> location_location location = names ∧
    StronglySorted Pandas.str_le names ∧
    NoDup names ∧
    ∀ region, region ∈ names ↔ region ∈ sample_region <$> rows samples.
Proof.
  intros Hreg Hrows Hdefault Hregions.
  destruct (convert_to_cell_Ok config new_id samples reference Hdefault)
    as (cell & Hcell & _ & _ & Hnames); [done|].
  destruct (convert_to_location_Ok new_id samples Hrows) as (location & Hloc & _ & Hentries & _).
  rewrite Hreg in Hnames, Hentries. destruct Hnames as (regions & Hsome & Hnames).
  exists cell, location, regions. cbn. rewrite Hnames, Hentries.
  pose proof (groupby_region_keys samples) as (? & ? & ?). done.
Qed.

(** C10 on the cell that meets its nucleus first. *)
Lemma regions_in_ascending_order_witness :
  ∃ cell location regions,
    convert_to_cell (example_config ["DEFAULT"; "NUCLEUS"]) 1 nucleus_first_samples ∅
      = Ok cell ∧
    convert_to_location 1 nucleus_first_samples = Ok location ∧
    cell_regions cell = Some regions ∧
    let names := region_region <$> regions in
    entry_region <$> location_location location = names ∧
    StronglySorted Pandas.str_le names ∧
    NoDup names ∧
    ∀ region, region ∈ names ↔ region ∈ sample_region <$> rows nucleus_first_samples.
Proof.
  apply (regions_in_ascending_order (example_config ["DEFAULT"; "NUCLEUS"]) 1
           nucleus_first_samples ∅).
  - reflexivity.
  - discriminate.
  - apply example_config_defined. set_solver.
  - intros region Hin. apply example_config_defined. cbn in Hin. set_solver.
Defined.

(** C10, a counterexample to the statement of the specification: on a group
    whose rows meet NUCLEUS before DEFAULT, the order of first appearance is
    NUCLEUS, DEFAULT, and both the location and the cell list DEFAULT
    first. *)
Lemma regions_not_in_first_encountered_order :
  Pandas.unique (sample_region <$> rows nucleus_first_samples) = ["NUCLEUS"; "DEFAULT"] ∧
  (λ location : Location, entry_region <$> location_location location)
    <$> convert_to_location 1 nucleus_first_samples = Ok ["DEFAULT"; "NUCLEUS"] ∧
  (λ regions : list CellRegion, region_region <$> regions)
    <$> get_cell_regions (example_config ["DEFAULT"; "NUCLEUS"]) nucleus_first_samples ∅
    = Ok ["DEFAULT"; "NUCLEUS"].
Proof. repeat split; reflexivity. Qed.

(** ** Sample transform *)

Lemma transform_value_Ok step offset v :
  ¬ (step == 0)%Q →
  int32_min ≤ Qtrunc (v / step) ≤ int32_max →
  transform_value step (Some offset) v = Ok (inject_Z (Qtrunc (v / step)) + offset)%Q.
Proof.
  intros Hstep Hrange. unfold transform_value, np_div, astype_int32. cbn.
  rewrite decide_False by done. cbn. rewrite decide_True by done. done.
Qed.

Lemma assign_fmap i (g : Q → Q) df :
  assign i (g <$> column i df) df =
  {| has_region := has_region df;
     rows := (λ r, set_coord i (g (get_coord i r)) r) <$> rows df |}.
Proof.
  unfold assign, column. f_equal.
  rewrite <-list_fmap_compose, zip_with_fmap_l, zip_with_diag. done.
Qed.

Lemma transform_axis_Ok i step offset df :
  ¬ (step == 0)%Q →
  (∀ v, v ∈ column i df → int32_min ≤ Qtrunc (v / step) ≤ int32_max) →
  (traverse (transform_value step (Some offset)) (column i df)
     ≫= λ col, Ok (assign i col df)) =
  Ok {| has_region := has_region df;
        rows := (λ r, set_coord i (inject_Z (Qtrunc (get_coord i r / step)) + offset)%Q r)
                <$> rows df |}.
Proof.
  intros Hstep Hrange.
  rewrite (traverse_fmap _ (λ v, inject_Z (Qtrunc (v / step)) + offset)%Q)
    by (intros; by apply transform_value_Ok, Hrange).
  rewrite result_bind_Ok. by rewrite assign_fmap.
Qed.

Lemma scaled_monotone step offset a b :
  (0 < step)%Q → (a <= b)%Q →
  (inject_Z (Qtrunc (a / step)) + offset <= inject_Z (Qtrunc (b / step)) + offset)%Q.
Proof.
  intros Hstep Hab. apply Qplus_le_compat; [|apply Qle_refl].
  rewrite <-Zle_Qle. apply Qtrunc_le.
  apply Qmult_le_compat_r; [done|]. apply Qinv_le_0_compat. by apply Qlt_le_weak.
Qed.

Lemma scaled_minimum step margin lo k :
  (0 < step)%Q → (lo == inject_Z k * step)%Q →
  (inject_Z (Qtrunc (lo / step)) + (- (lo / step) + margin + 1) == margin + 1)%Q.
Proof.
  intros Hstep Hlo.
  assert (lo / step == inject_Z k)%Q as Hk.
  { rewrite Hlo. apply Qdiv_mult_l. intros Hz. rewrite Hz in Hstep. by apply Qlt_irrefl in Hstep. }
  rewrite (Qtrunc_integer _ _ Hk), Hk. ring.
Qed.

(** C3, as the code has it: on a table that is not empty, with a positive
    step on each axis (and scaled coordinates that fit int32), each axis is
    transformed on its own: the coordinate of every row becomes
    trunc(raw / step) + offset, where trunc truncates toward zero as
    [astype("int32")] does (it is the floor for raw >= 0) and
    offset = -(min / step) + margin + 1; when the minimum of the axis is an
    integer multiple of the step, the minimum transformed coordinate of the
    axis is margin + 1. *)
Theorem transform_sample_voxels_truncates get_step_size df margins :
  rows df ≠ [] →
  (∀ i, (0 < get_step_size (column i df))%Q) →
  (∀ i v, v ∈ column i df →
     int32_min ≤ Qtrunc (v / get_step_size (column i df)) ≤ int32_max) →
  let '(steps, offsets, _) := calculate_sample_transform get_step_size df margins in
  ∃ df' offset,
    transform_sample_voxels df steps offsets = Ok df' ∧
    has_region df' = has_region df ∧
    rows df' = transformed steps offset <$> rows df ∧
    ∀ i,
      steps i = get_step_size (column i df) ∧
      offsets i = Some (offset i) ∧
      column i df' =
        (λ raw, inject_Z (Qtrunc (raw / steps i)) + offset i)%Q <$> column i df ∧
      (∀ raw, (0 <= raw)%Q → Qtrunc (raw / steps i) = Qfloor (raw / steps i)) ∧
      ∃ lo,
        Pandas.min (column i df) = Some lo ∧
        offset i = (- (lo / steps i) + inject_Z (margin_of margins i) + 1)%Q ∧
        ∀ k, (lo == inject_Z k * steps i)%Q →
          ∃ lo', Pandas.min (column i df') = Some lo' ∧
                 (lo' == inject_Z (margin_of margins i) + 1)%Q.
Proof.
  intros Hrows Hsteps Hrange. unfold calculate_sample_transform.
  set (steps := λ i, get_step_size (column i df)).
  assert (∀ i, ∃ lo, Pandas.min (column i df) = Some lo) as Hmin.
  { intros i. apply min_is_Some. unfold column. by destruct (rows df). }
  assert (∀ i, ¬ (steps i == 0)%Q) as Hnz.
  { intros i Hz. specialize (Hsteps i). fold (steps i) in Hsteps. rewrite Hz in Hsteps.
    by apply Qlt_irrefl in Hsteps. }
  set (offset := λ i, (- (default 0%Q (Pandas.min (column i df)) / steps i)
                       + inject_Z (margin_of margins i) + 1)%Q).
  exists {| has_region := has_region df; rows := transformed steps offset <$> rows df |}, offset.
  assert (∀ i, np_add (np_add (np_neg (np_div (Pandas.min (column i df)) (steps i)))
                               (inject_Z (margin_of margins i))) 1 = Some (offset i)) as Hoff.
  { intros i. unfold offset. destruct (Hmin i) as [lo ->]. cbn.
    rewrite decide_False by apply Hnz. done. }
  split; [|split; [done|split; [done|]]].
  - unfold transform_sample_voxels. cbn [foldl coords].
    fold (steps cx) (steps cy) (steps cz). rewrite !Hoff.
    rewrite result_bind_Ok; cbv beta.
    rewrite transform_axis_Ok by (first [apply Hnz|apply Hrange]).
    rewrite result_bind_Ok; cbv beta.
    rewrite transform_axis_Ok; [|apply Hnz|].
    2:{ intros v Hv. apply (Hrange cy). unfold column in *. cbn in Hv.
        rewrite <-list_fmap_compose in Hv. done. }
    rewrite result_bind_Ok; cbv beta.
    rewrite transform_axis_Ok; [|apply Hnz|].
    2:{ intros v Hv. apply (Hrange cz). unfold column in *. cbn in Hv.
        rewrite <-!list_fmap_compose in Hv. done. }
    cbn. do 2 f_equal. rewrite <-!list_fmap_compose. apply list_fmap_ext.
    intros _ [] _. done.
  - intros i. split; [done|]. split; [apply Hoff|].
    assert (column i {| has_region := has_region df;
                        rows := transformed steps offset <$> rows df |} =
            (λ raw, inject_Z (Qtrunc (raw / steps i)) + offset i)%Q <$> column i df) as Hcol.
    { unfold column. cbn. rewrite <-!list_fmap_compose. apply list_fmap_ext.
      intros _ r _. by destruct i. }
    split; [exact Hcol|]. split.
    { intros raw Hraw. apply Qtrunc_nonneg. apply Qle_shift_div_l; [apply Hsteps|].
      by rewrite Qmult_0_l. }
    destruct (Hmin i) as [lo Hlo]. exists lo. split; [done|]. split.
    { unfold offset. by rewrite Hlo. }
    intros k Hk. rewrite Hcol.
    destruct (min_fmap_monotone
                (λ raw, inject_Z (Qtrunc (raw / steps i)) + offset i)%Q (column i df) lo)
      as (lo' & Hlo' & Heq); [|done|].
    { intros a b. apply scaled_monotone, Hsteps. }
    exists lo'. split; [done|]. rewrite Heq. unfold offset. rewrite Hlo. cbn.
    by apply (scaled_minimum _ _ _ k); [apply Hsteps|].
Qed.

(** C3 on the grid of six voxels, with margins 3, 4 and 5 and the step of
    the specification. *)
Lemma transform_sample_voxels_truncates_witness :
  let '(steps, offsets, _) :=
    calculate_sample_transform ProcessSamples.get_step_size grid_samples (3, 4, 5) in
  ∃ df',
    transform_sample_voxels grid_samples steps offsets = Ok df' ∧
    ∃ lo', Pandas.min (column cx df') = Some lo' ∧ (lo' == inject_Z 3 + 1)%Q.
Proof.
  pose proof (transform_sample_voxels_truncates ProcessSamples.get_step_size
                grid_samples (3, 4, 5)) as H.
  unfold calculate_sample_transform in *.
  destruct H as (df' & offset & Heq & _ & _ & Hall).
  - discriminate.
  - intros []; reflexivity.
  - intros i v Hv. unfold column in Hv. cbn in Hv.
    destruct i; repeat (apply elem_of_cons in Hv as [->|Hv]);
      try (by apply elem_of_nil in Hv); vm_compute; split; discriminate.
  - exists df'. split; [exact Heq|].
    destruct (Hall cx) as (_ & _ & _ & _ & lo & Hlo & _ & Hmin).
    apply (Hmin 0). injection Hlo as <-. reflexivity.
Defined.

(** C3, a counterexample to the statement of the specification: with x = 1
    and 3 (step 2, margin 0) the transformed x are 1/2 and 3/2, whose minimum
    is not margin + 1 = 1; with x = -3 and -1 the transformed x are 3/2 and
    5/2, and floor(raw / step) + offset would be 1/2 and 3/2. *)
Lemma transform_minimum_off_the_margin :
  (let '(steps, offsets, _) :=
     calculate_sample_transform ProcessSamples.get_step_size unaligned_samples (0, 0, 0) in
   steps cx = 2%Q ∧
   ∃ df',
     transform_sample_voxels unaligned_samples steps offsets = Ok df' ∧
     Qred <$> column cx df' = [1 # 2; 3 # 2]%Q ∧
     Qred <$> Pandas.min (column cx df') = Some (1 # 2)%Q ∧
     ¬ (1 # 2 == inject_Z 0 + 1)%Q) ∧
  (let '(steps, offsets, _) :=
     calculate_sample_transform ProcessSamples.get_step_size negative_grid_samples (0, 0, 0) in
   steps cx = 2%Q ∧
   ∃ df' offset,
     offsets cx = Some offset ∧
     transform_sample_voxels negative_grid_samples steps offsets = Ok df' ∧
     Qred <$> column cx df' = [3 # 2; 5 # 2]%Q ∧
     (λ raw, Qred (inject_Z (Qfloor (raw / steps cx)) + offset)) <$>
       column cx negative_grid_samples = [1 # 2; 3 # 2]%Q).
Proof.
  split.
  - split; [reflexivity|]. eexists. split; [reflexivity|]. repeat split; done.
  - split; [reflexivity|]. eexists _, _. split; [reflexivity|]. repeat split; done.
Qed.

(** * Further properties *)

(** ** The transform and its bounds *)

Lemma Qtrunc_above q : (q - 1 < inject_Z (Qtrunc q))%Q.
Proof.
  destruct q as [n d]. unfold Qlt, Qtrunc, Qminus, Qplus, Qopp, inject_Z. cbn.
  rewrite Pos.mul_1_r.
  pose proof (Z.quot_rem' n (Z.pos d)) as Hqr.
  pose proof (Z.rem_bound_abs n (Z.pos d)) as Hrem.
  generalize dependent (Z.quot n (Z.pos d)). generalize dependent (Z.rem n (Z.pos d)).
  intros r Hr t Ht. lia.
Qed.

Lemma Qtrunc_below q : (inject_Z (Qtrunc q) < q + 1)%Q.
Proof.
  destruct q as [n d]. unfold Qlt, Qtrunc, Qplus, inject_Z. cbn.
  rewrite Pos.mul_1_r.
  pose proof (Z.quot_rem' n (Z.pos d)) as Hqr.
  pose proof (Z.rem_bound_abs n (Z.pos d)) as Hrem.
  generalize dependent (Z.quot n (Z.pos d)). generalize dependent (Z.rem n (Z.pos d)).
  intros r Hr t Ht. lia.
Qed.

Section column_max.
Implicit Types col : list Q.

Lemma Qmax_cases a b :
  (Pandas.Qmax a b = a ∧ (b <= a)%Q) ∨ (Pandas.Qmax a b = b ∧ (a <= b)%Q).
Proof.
  unfold Pandas.Qmax. case_decide; [right|left]; split; try done.
  - by apply Qlt_le_weak.
  - by apply Qnot_lt_le.
Qed.

Lemma foldl_Qmax_spec col a :
  let m := foldl Pandas.Qmax a col in
  m ∈ a :: col ∧ ∀ x, x ∈ a :: col → (x <= m)%Q.
Proof.
  revert a. induction col as [|b col IH]; intros a; cbn.
  - split; [by left|]. intros x ->%list_elem_of_singleton. apply Qle_refl.
  - destruct (IH (Pandas.Qmax a b)) as [Hin Hle]. split.
    + apply elem_of_cons in Hin as [->|Hin]; [|by do 2 right].
      destruct (Qmax_cases a b) as [[-> _]|[-> _]]; [by left|right; by left].
    + intros x Hx.
      assert (Pandas.Qmax a b <= foldl Pandas.Qmax (Pandas.Qmax a b) col)%Q as Hm
        by (apply Hle; by left).
      apply elem_of_cons in Hx as [->|[->|Hx]%elem_of_cons].
      * apply (Qle_trans _ (Pandas.Qmax a b)); [|done].
        destruct (Qmax_cases a b) as [[-> ?]|[-> ?]]; [apply Qle_refl|done].
      * apply (Qle_trans _ (Pandas.Qmax a b)); [|done].
        destruct (Qmax_cases a b) as [[-> ?]|[-> ?]]; [done|apply Qle_refl].
      * apply Hle. by right.
Qed.

Lemma max_spec col m :
  Pandas.max col = Some m → m ∈ col ∧ ∀ x, x ∈ col → (x <= m)%Q.
Proof.
  destruct col as [|a col]; [done|]. intros [= <-]. apply foldl_Qmax_spec.
Qed.

Lemma max_is_Some col : col ≠ [] → is_Some (Pandas.max col).
Proof. destruct col; [done|]. by eexists. Qed.

Lemma max_fmap_monotone (f : Q → Q) col hi :
  (∀ a b, (a <= b)%Q → (f a <= f b)%Q) →
  Pandas.max col = Some hi →
  ∃ hi', Pandas.max (f <$> col) = Some hi' ∧ (hi' == f hi)%Q.
Proof.
  intros Hf Hmax. destruct (max_spec _ _ Hmax) as [Hin Hle].
  destruct (max_is_Some (f <$> col)) as [hi' Hmax'].
  { destruct col; [by apply elem_of_nil in Hin|done]. }
  exists hi'. split; [done|].
  destruct (max_spec _ _ Hmax') as [Hin' Hle'].
  apply list_elem_of_fmap in Hin' as (x & -> & Hx).
  apply Qle_antisym.
  - apply Hf, Hle, Hx.
  - apply Hle'. apply list_elem_of_fmap. eauto.
Qed.

End column_max.

(** The transform of any table with given finite offsets. *)
Lemma transform_sample_voxels_transformed df steps offsets (offset : coord → Q) :
  (∀ i, ¬ (steps i == 0)%Q) →
  (∀ i, offsets i = Some (offset i)) →
  (∀ i v, v ∈ column i df → int32_min ≤ Qtrunc (v / steps i) ≤ int32_max) →
  transform_sample_voxels df steps offsets =
    Ok {| has_region := has_region df; rows := transformed steps offset <$> rows df |}.
Proof.
  intros Hnz Hoff Hrange. unfold transform_sample_voxels. cbn [foldl coords].
  rewrite !Hoff.
  rewrite result_bind_Ok; cbv beta.
  rewrite transform_axis_Ok by (first [apply Hnz|apply Hrange]).
  rewrite result_bind_Ok; cbv beta.
  rewrite transform_axis_Ok; [|apply Hnz|].
  2:{ intros v Hv. apply (Hrange cy). unfold column in *. cbn in Hv.
      rewrite <-list_fmap_compose in Hv. done. }
  rewrite result_bind_Ok; cbv beta.
  rewrite transform_axis_Ok; [|apply Hnz|].
  2:{ intros v Hv. apply (Hrange cz). unfold column in *. cbn in Hv.
      rewrite <-!list_fmap_compose in Hv. done. }
  cbn. do 2 f_equal. rewrite <-!list_fmap_compose. apply list_fmap_ext.
  intros _ [] _. done.
Qed.

Lemma calculate_sample_transform_finite get_step_size df margins :
  rows df ≠ [] →
  (∀ i, (0 < get_step_size (column i df))%Q) →
  let '(steps, offsets, bounds) := calculate_sample_transform get_step_size df margins in
  ∀ i, steps i = get_step_size (column i df) ∧
       offsets i = Some (transform_offset get_step_size df margins i) ∧
       bounds i = Some (transform_bound get_step_size df margins i).
Proof.
  intros Hrows Hsteps. cbn. intros i. split; [done|].
  assert (¬ (get_step_size (column i df) == 0)%Q) as Hnz.
  { intros Hz. specialize (Hsteps i). rewrite Hz in Hsteps. by apply Qlt_irrefl in Hsteps. }
  destruct (min_is_Some (column i df)) as [lo Hlo].
  { unfold column. by destruct (rows df). }
  destruct (max_is_Some (column i df)) as [hi Hhi].
  { unfold column. by destruct (rows df). }
  unfold transform_offset, transform_bound. rewrite Hlo, Hhi. cbn.
  rewrite !decide_False by done. done.
Qed.

Lemma scaled_between step margin lo hi v :
  (0 < step)%Q → (lo <= v)%Q → (v <= hi)%Q →
  let c := (inject_Z (Qtrunc (v / step)) + (- (lo / step) + margin + 1))%Q in
  (margin < c)%Q ∧ (c < ((hi - lo) / step + 2 * margin + 3) - margin - 1)%Q.
Proof.
  intros Hstep Hlo Hhi c. subst c.
  assert (0 <= / step)%Q as Hinv by (apply Qinv_le_0_compat; by apply Qlt_le_weak).
  assert (lo / step <= v / step)%Q as Hlo' by (by apply Qmult_le_compat_r).
  assert (v / step <= hi / step)%Q as Hhi' by (by apply Qmult_le_compat_r).
  pose proof (Qtrunc_above (v / step)) as Ha.
  pose proof (Qtrunc_below (v / step)) as Hb.
  assert ((hi - lo) / step == hi / step - lo / step)%Q as -> by (unfold Qdiv; ring).
  split; lra.
Qed.

(** X1: on a table that is not empty, with a positive step on each axis (and
    scaled coordinates that fit int32), the transform returns, and every
    transformed coordinate of an axis lies strictly between the margin of
    the axis and bound - margin - 1, where bound is the size that
    [calculate_sample_transform] gives for the axis: the samples keep at
    least the margin free on both sides of the box. *)
Theorem transformed_within_bounds get_step_size df margins :
  rows df ≠ [] →
  (∀ i, (0 < get_step_size (column i df))%Q) →
  (∀ i v, v ∈ column i df →
     int32_min ≤ Qtrunc (v / get_step_size (column i df)) ≤ int32_max) →
  let '(steps, offsets, bounds) := calculate_sample_transform get_step_size df margins in
  ∃ df',
    transform_sample_voxels df steps offsets = Ok df' ∧
    ∀ i, ∃ bound,
      bounds i = Some bound ∧
      ∀ c, c ∈ column i df' →
        (inject_Z (margin_of margins i) < c)%Q ∧
        (c < bound - inject_Z (margin_of margins i) - 1)%Q.
Proof.
  intros Hrows Hsteps Hrange.
  pose proof (calculate_sample_transform_finite get_step_size df margins Hrows Hsteps) as Hcalc.
  destruct (calculate_sample_transform get_step_size df margins) as [[steps offsets] bounds].
  assert (∀ i, ¬ (steps i == 0)%Q) as Hnz.
  { intros i Hz. destruct (Hcalc i) as [Hs _]. specialize (Hsteps i).
    rewrite <-Hs, Hz in Hsteps. by apply Qlt_irrefl in Hsteps. }
  eexists. split.
  { apply (transform_sample_voxels_transformed df steps offsets
             (transform_offset get_step_size df margins)); [done|apply Hcalc|].
    intros i v Hv. destruct (Hcalc i) as [-> _]. by apply Hrange. }
  intros i. destruct (Hcalc i) as (Hs & _ & Hb). eexists. split; [exact Hb|].
  intros c Hc. unfold column in Hc. cbn in Hc. rewrite <-list_fmap_compose in Hc.
  apply list_elem_of_fmap in Hc as (r & -> & Hr). unfold compose.
  assert (get_coord i (transformed steps (transform_offset get_step_size df margins) r) =
          (inject_Z (Qtrunc (get_coord i r / steps i))
           + transform_offset get_step_size df margins i)%Q) as -> by (by destruct i).
  destruct (min_is_Some (column i df)) as [lo Hlo]; [unfold column; by destruct (rows df)|].
  destruct (max_is_Some (column i df)) as [hi Hhi]; [unfold column; by destruct (rows df)|].
  unfold transform_offset, transform_bound. rewrite Hlo, Hhi. cbn. rewrite Hs.
  assert (get_coord i r ∈ column i df) as Hin by (apply list_elem_of_fmap; eauto).
  apply scaled_between; [apply Hsteps| |].
  - by apply (min_spec _ _ Hlo).
  - by apply (max_spec _ _ Hhi).
Qed.

(** X1 on the two unaligned voxels, with margins 3, 4 and 5. *)
Lemma transformed_within_bounds_witness :
  let '(steps, offsets, bounds) :=
    calculate_sample_transform ProcessSamples.get_step_size unaligned_samples (3, 4, 5) in
  ∃ df',
    transform_sample_voxels unaligned_samples steps offsets = Ok df' ∧
    ∀ i, ∃ bound,
      bounds i = Some bound ∧
      ∀ c, c ∈ column i df' →
        (inject_Z (margin_of (3, 4, 5)%Z i) < c)%Q ∧
        (c < bound - inject_Z (margin_of (3, 4, 5)%Z i) - 1)%Q.
Proof.
  apply (transformed_within_bounds ProcessSamples.get_step_size unaligned_samples (3, 4, 5)).
  - discriminate.
  - intros []; reflexivity.
  - intros i v Hv. unfold column in Hv. cbn in Hv.
    destruct i; repeat (apply elem_of_cons in Hv as [->|Hv]);
      try (by apply elem_of_nil in Hv); vm_compute; split; discriminate.
Defined.

(** X2: when the minimum and the maximum of an axis are the multiples k
    and n of its positive step, the bound of the axis is the integer
    n - k + 2 * margin + 3 and the largest transformed coordinate is
    n - k + margin + 1, that is bound - margin - 2. *)
Theorem transformed_maximum_aligned get_step_size df margins i lo hi (k n : Z) :
  rows df ≠ [] →
  (∀ i, (0 < get_step_size (column i df))%Q) →
  (∀ i v, v ∈ column i df →
     int32_min ≤ Qtrunc (v / get_step_size (column i df)) ≤ int32_max) →
  Pandas.min (column i df) = Some lo →
  Pandas.max (column i df) = Some hi →
  (lo == inject_Z k * get_step_size (column i df))%Q →
  (hi == inject_Z n * get_step_size (column i df))%Q →
  let '(steps, offsets, bounds) := calculate_sample_transform get_step_size df margins in
  ∃ df' hi' bound,
    transform_sample_voxels df steps offsets = Ok df' ∧
    Pandas.max (column i df') = Some hi' ∧
    bounds i = Some bound ∧
    (bound == inject_Z (n - k + 2 * margin_of margins i + 3))%Q ∧
    (hi' == inject_Z (n - k + margin_of margins i + 1))%Q.
Proof.
  intros Hrows Hsteps Hrange Hlo Hhi Hk Hn.
  pose proof (calculate_sample_transform_finite get_step_size df margins Hrows Hsteps) as Hcalc.
  destruct (calculate_sample_transform get_step_size df margins) as [[steps offsets] bounds].
  assert (∀ i, ¬ (steps i == 0)%Q) as Hnz.
  { intros j Hz. destruct (Hcalc j) as [Hs _]. specialize (Hsteps j).
    rewrite <-Hs, Hz in Hsteps. by apply Qlt_irrefl in Hsteps. }
  destruct (Hcalc i) as (Hs & _ & Hb).
  assert (column i {| has_region := has_region df;
                      rows := transformed steps (transform_offset get_step_size df margins)
                              <$> rows df |} =
          (λ raw, inject_Z (Qtrunc (raw / steps i))
                  + transform_offset get_step_size df margins i)%Q <$> column i df) as Hcol.
  { unfold column. cbn. rewrite <-!list_fmap_compose. apply list_fmap_ext.
    intros _ r _. by destruct i. }
  destruct (max_fmap_monotone
              (λ raw, inject_Z (Qtrunc (raw / steps i))
                      + transform_offset get_step_size df margins i)%Q (column i df) hi)
    as (hi' & Hhi' & Heq); [|done|].
  { intros a b. apply scaled_monotone. rewrite Hs. apply Hsteps. }
  eexists _, hi', _. split.
  { apply (transform_sample_voxels_transformed df steps offsets
             (transform_offset get_step_size df margins)); [done|apply Hcalc|].
    intros j v Hv. destruct (Hcalc j) as [-> _]. by apply Hrange. }
  rewrite Hcol. split; [done|]. split; [exact Hb|].
  assert (¬ (get_step_size (column i df) == 0)%Q) as Hnz' by (rewrite <-Hs; apply Hnz).
  assert (lo / get_step_size (column i df) == inject_Z k)%Q as Hk'
    by (rewrite Hk; by apply Qdiv_mult_l).
  assert (hi / get_step_size (column i df) == inject_Z n)%Q as Hn'
    by (rewrite Hn; by apply Qdiv_mult_l).
  split.
  - unfold transform_bound. rewrite Hlo, Hhi. cbn.
    assert ((hi - lo) / get_step_size (column i df)
            == hi / get_step_size (column i df) - lo / get_step_size (column i df))%Q
      as -> by (unfold Qdiv; ring).
    rewrite Hk', Hn'. unfold Qeq, Qplus, Qminus, Qopp, Qmult, inject_Z; cbn; lia.
  - rewrite Heq. unfold transform_offset. rewrite Hlo. cbn. rewrite Hs.
    rewrite (Qtrunc_integer _ _ Hn'), Hk'.
    unfold Qeq, Qplus, Qminus, Qopp, Qmult, inject_Z; cbn; lia.
Qed.

(** X2 on the x axis of the grid of six voxels (0 to 10 in steps of 2),
    with margins 3, 4 and 5. *)
Lemma transformed_maximum_aligned_witness :
  let '(steps, offsets, bounds) :=
    calculate_sample_transform ProcessSamples.get_step_size grid_samples (3, 4, 5) in
  ∃ df' hi' bound,
    transform_sample_voxels grid_samples steps offsets = Ok df' ∧
    Pandas.max (column cx df') = Some hi' ∧
    bounds cx = Some bound ∧
    (bound == inject_Z (5 - 0 + 2 * 3 + 3))%Q ∧
    (hi' == inject_Z (5 - 0 + 3 + 1))%Q.
Proof.
  apply (transformed_maximum_aligned ProcessSamples.get_step_size grid_samples (3, 4, 5)
           cx 0%Q 10%Q 0 5).
  - discriminate.
  - intros []; reflexivity.
  - intros i v Hv. unfold column in Hv. cbn in Hv.
    destruct i; repeat (apply elem_of_cons in Hv as [->|Hv]);
      try (by apply elem_of_nil in Hv); vm_compute; split; discriminate.
  - reflexivity.
  - reflexivity.
  - reflexivity.
  - reflexivity.
Defined.

(** ** The classifier, further *)

Section first_index.
Context {A : Type} (P : A → Prop) `{∀ a, Decision (P a)}.

Lemma filter_imap_first (l : list A) (k : nat) :
  let found := (filter (λ '(ind, a), P a) (imap (λ i a, (Z.of_nat (k + i), a)) l)).*1 in
  (found = [] ∧ Forall (λ a, ¬ P a) l) ∨
  (∃ (i : nat) a rest, found = Z.of_nat (k + i) :: rest ∧ l !! i = Some a ∧ P a ∧
     ∀ (j : nat) b, (j < i)%nat → l !! j = Some b → ¬ P b).
Proof.
  cbn. revert k. induction l as [|a l IH]; intros k; [by left|].
  rewrite imap_cons, filter_cons. cbn. destruct (decide (P a)) as [Ha|Ha].
  - right. exists 0%nat, a. eexists. rewrite Nat.add_0_r. repeat split; [done..|].
    intros j b Hj. lia.
  - destruct (IH (S k)) as [[Hnil Hall]|(i & b & rest & Hfound & Hi & Hb & Hbefore)].
    + left. split; [|by constructor].
      rewrite <-Hnil. do 2 f_equal. apply imap_ext. intros i b _. cbn.
      by rewrite Nat.add_succ_r.
    + right. exists (S i), b, rest. repeat split; [|done..|].
      * rewrite <-Nat.add_succ_comm, <-Hfound. do 2 f_equal. apply imap_ext.
        intros i' b' _. cbn. by rewrite Nat.add_succ_r.
      * intros [|j] c Hj Hc; simplify_eq/=; [done|]. apply (Hbefore j); [lia|done].
Qed.

Lemma filter_enumerate_first (l : list A) :
  let found := (filter (λ '(ind, a), P a) (enumerate l)).*1 in
  (found = [] ∧ Forall (λ a, ¬ P a) l) ∨
  (∃ (i : nat) a rest, found = Z.of_nat i :: rest ∧ l !! i = Some a ∧ P a ∧
     ∀ (j : nat) b, (j < i)%nat → l !! j = Some b → ¬ P b).
Proof. exact (filter_imap_first l 0). Qed.

End first_index.

Lemma get_cell_phase_rank volume critical_volume :
  ∃ (i : nat) state phase,
    states !! i = Some state ∧ phase_labels !! i = Some phase ∧
    get_cell_phase volume critical_volume = Ok (state, phase) ∧
    (∀ (j : nat) fraction, (j < i)%nat → fractions !! j = Some fraction →
       ¬ (volume < fraction * critical_volume)%Q) ∧
    ((i < 4)%nat → ∃ fraction, fractions !! i = Some fraction ∧
                     (volume < fraction * critical_volume)%Q).
Proof.
  unfold get_cell_phase. cbv zeta.
  destruct (filter_enumerate_first (λ thresh, (volume < thresh)%Q)
              ((λ fraction, (fraction * critical_volume)%Q) <$> fractions))
    as [[Hnil Hall]|(i & t & rest & Hfound & Hi & Ht & Hbefore)]; cbv beta in *.
  - rewrite Hnil. exists 4%nat. eexists _, _. cbn.
    split; [done|]. split; [done|]. split; [done|]. split; [|lia].
    intros j fraction Hj Hfr. rewrite Forall_lookup in Hall.
    apply (Hall j). by rewrite list_lookup_fmap, Hfr.
  - rewrite Hfound. cbn [next].
    assert (i < 5)%nat as Hi5.
    { apply lookup_lt_Some in Hi. by rewrite length_fmap in Hi. }
    assert (∃ state phase, states !! i = Some state ∧ phase_labels !! i = Some phase ∧
              (list_getitem states (Z.of_nat i) ≫= λ state,
                 list_getitem phases (Z.of_nat i) ≫= λ phase_name,
                   Ok (state, state +:+ "_" +:+ phase_name)) = Ok (state, phase))
      as (state & phase & ? & ? & ?).
    { do 5 (destruct i as [|i]; [by eexists _, _|]). lia. }
    exists i, state, phase. repeat split; [done..| |].
    + intros j fraction Hj Hfr. apply (Hbefore j); [done|]. by rewrite list_lookup_fmap, Hfr.
    + intros _. rewrite list_lookup_fmap in Hi.
      destruct (fractions !! i) as [fraction|]; simplify_eq/=. by exists fraction.
Qed.

(** X3: [get_cell_phase] is monotone: a larger volume, at the same critical
    volume, is never classified at an earlier label of the list LATE, EARLY,
    G1, S, G2.  This holds for every critical volume, negative ones
    included. *)
Theorem get_cell_phase_monotone volume volume' critical_volume :
  (volume <= volume')%Q →
  ∃ (i j : nat) state phase state' phase',
    (i ≤ j)%nat ∧
    phase_labels !! i = Some phase ∧ phase_labels !! j = Some phase' ∧
    get_cell_phase volume critical_volume = Ok (state, phase) ∧
    get_cell_phase volume' critical_volume = Ok (state', phase').
Proof.
  intros Hle.
  destruct (get_cell_phase_rank volume critical_volume)
    as (i & state & phase & Hstate & Hphase & Heq & Hbefore & _).
  destruct (get_cell_phase_rank volume' critical_volume)
    as (j & state' & phase' & _ & Hphase' & Heq' & _ & Hat).
  exists i, j, state, phase, state', phase'. repeat split; [|done..].
  destruct (decide (i ≤ j)%nat) as [|Hji]; [done|]. exfalso.
  destruct Hat as (fraction & Hfr & Hlt).
  { apply lookup_lt_Some in Hstate. cbn in Hstate. lia. }
  apply (Hbefore j fraction); [lia|done|]. by apply (Qle_lt_trans _ volume').
Qed.

(** X3 at the volumes 249 and 250 around the first threshold of 1000. *)
Lemma get_cell_phase_monotone_witness :
  ∃ (i j : nat) state phase state' phase',
    (i ≤ j)%nat ∧
    phase_labels !! i = Some phase ∧ phase_labels !! j = Some phase' ∧
    get_cell_phase 249 1000 = Ok (state, phase) ∧
    get_cell_phase 250 1000 = Ok (state', phase').
Proof. apply get_cell_phase_monotone. discriminate. Defined.

(** X4: the classification depends on the volume and the critical volume
    only through their ratio: multiplying both by the same positive factor
    (a change of unit) changes nothing. *)
Theorem get_cell_phase_scale_invariant scale volume critical_volume :
  (0 < scale)%Q →
  get_cell_phase (scale * volume) (scale * critical_volume) =
  get_cell_phase volume critical_volume.
Proof.
  intros Hscale.
  assert (∀ v fraction, (scale * v < fraction * (scale * critical_volume))%Q ↔
                         (v < fraction * critical_volume)%Q) as Hiff.
  { intros v fraction.
    assert (fraction * (scale * critical_volume) == scale * (fraction * critical_volume))%Q
      as -> by ring.
    by apply Qmult_lt_l. }
  destruct (get_cell_phase_rank (scale * volume) (scale * critical_volume))
    as (i & state & phase & Hstate & Hphase & -> & Hbefore & Hat).
  destruct (get_cell_phase_rank volume critical_volume)
    as (j & state' & phase' & Hstate' & Hphase' & -> & Hbefore' & Hat').
  assert (i = j) as <-; [|congruence].
  apply lookup_lt_Some in Hstate, Hstate'. cbn in Hstate, Hstate'.
  destruct (Nat.lt_trichotomy i j) as [Hlt|[?|Hlt]]; [exfalso|done|exfalso].
  - destruct Hat as (fraction & Hfr & Hv); [lia|].
    apply (Hbefore' i fraction); [done..|]. by apply Hiff.
  - destruct Hat' as (fraction & Hfr & Hv); [lia|].
    apply (Hbefore j fraction); [done..|]. by apply Hiff.
Qed.

(** X4 at the factor 8. *)
Lemma get_cell_phase_scale_invariant_witness :
  get_cell_phase (8 * 300) (8 * 1000) = get_cell_phase 300 1000.
Proof. apply get_cell_phase_scale_invariant. reflexivity. Defined.

(** ** The transform at its edges *)

Lemma transform_sample_voxels_axes df steps offsets :
  transform_sample_voxels df steps offsets =
  (transform_axis steps offsets cx df ≫= transform_axis steps offsets cy)
    ≫= transform_axis steps offsets cz.
Proof. done. Qed.

Lemma traverse_length {A B} (f : A → result B) (l : list A) bs :
  traverse f l = Ok bs → length bs = length l.
Proof.
  revert bs. induction l as [|a l IH]; intros bs; cbn; [by intros [= <-]|].
  destruct (f a); [|done]. cbn. destruct (traverse f l) as [bs'|]; [|done]. cbn.
  intros [= <-]. cbn. f_equal. by apply IH.
Qed.

Lemma transform_axis_length steps offsets i df df' :
  transform_axis steps offsets i df = Ok df' → length (rows df') = length (rows df).
Proof.
  unfold transform_axis.
  destruct (traverse _ _) as [col|] eqn:Hcol; [|done]. cbn. intros [= <-]. cbn.
  apply traverse_length in Hcol. unfold column in Hcol. rewrite length_fmap in Hcol.
  rewrite length_zip_with. lia.
Qed.

Lemma transform_axis_zero_step steps offsets i df :
  rows df ≠ [] → (steps i == 0)%Q → transform_axis steps offsets i df = Raise ValueError.
Proof.
  intros Hrows Hzero. unfold transform_axis, column.
  destruct (rows df) as [|r rs]; [done|]. cbn. unfold transform_value, np_div. cbn.
  rewrite decide_True by done. done.
Qed.

Lemma transform_axis_empty steps offsets i df :
  rows df = [] → transform_axis steps offsets i df = Ok df.
Proof.
  intros Hrows. unfold transform_axis, column, assign. rewrite Hrows. cbn.
  destruct df. cbn in *. by subst.
Qed.

(** X5: the transform at its edges.  A table without rows is returned as it
    is, whatever the steps and the offsets, also undefined ones.  On a table
    with rows a zero step on the x axis raises [ValueError] (the division
    gives a non-finite value, which the cast to int32 refuses), and a zero
    step on any axis makes the transform raise. *)
Theorem transform_sample_voxels_edges df steps offsets :
  (rows df = [] → transform_sample_voxels df steps offsets = Ok df) ∧
  (rows df ≠ [] → (steps cx == 0)%Q →
   transform_sample_voxels df steps offsets = Raise ValueError) ∧
  (rows df ≠ [] → (∃ i, (steps i == 0)%Q) →
   ∃ e, transform_sample_voxels df steps offsets = Raise e).
Proof.
  rewrite transform_sample_voxels_axes. split; [|split].
  - intros Hrows.
    by rewrite transform_axis_empty, result_bind_Ok, transform_axis_empty,
      result_bind_Ok, transform_axis_empty.
  - intros Hrows Hzero. by rewrite transform_axis_zero_step.
  - intros Hrows [i Hzero].
    destruct (transform_axis steps offsets cx df) as [df1|e1] eqn:H1; [|by eexists].
    assert (rows df1 ≠ []) as Hrows1.
    { apply transform_axis_length in H1. destruct (rows df1), (rows df); done. }
    rewrite result_bind_Ok.
    destruct (transform_axis steps offsets cy df1) as [df2|e2] eqn:H2; [|by eexists].
    assert (rows df2 ≠ []) as Hrows2.
    { apply transform_axis_length in H2. destruct (rows df2), (rows df1); done. }
    rewrite result_bind_Ok. destruct i.
    + by rewrite transform_axis_zero_step in H1.
    + by rewrite transform_axis_zero_step in H2.
    + rewrite transform_axis_zero_step by done. by eexists.
Qed.

Lemma transform_sample_voxels_edges_witness :
  transform_sample_voxels five_samples (λ _, 0%Q) (λ _, Some 1%Q) = Raise ValueError.
Proof.
  apply (proj1 (proj2 (transform_sample_voxels_edges five_samples (λ _, 0%Q) (λ _, Some 1%Q)))).
  - discriminate.
  - reflexivity.
Defined.

(** ** The validity filter, further *)

Lemma filter_valid_samples_rows df :
  has_region df = true →
  filter_valid_samples df =
    {| has_region := true; rows := filter (λ r, valid_cell df (sample_id r)) (rows df) |}.
Proof.
  intros Hreg. unfold filter_valid_samples. rewrite Hreg.
  pose proof (groupby_filter_rows Z.le sample_id
    (λ x, bool_decide (len (Pandas.unique (sample_region <$> rows x)) > 1)) df) as Hrows.
  destruct (Pandas.groupby_filter _ _ _ df) as [hr rs] eqn:Heq.
  assert (hr = true) as ->.
  { unfold Pandas.groupby_filter, select in Heq. by simplify_eq. }
  cbn in Hrows. rewrite Hrows. f_equal.
  apply list_filter_iff. intros r. rewrite bool_decide_eq_true.
  unfold valid_cell, len, cell_region_set. rewrite <-length_unique_size. cbn. lia.
Qed.

(** A cell that is kept keeps all its rows. *)
Lemma filter_valid_samples_cell df cell :
  has_region df = true →
  filter (λ r, sample_id r = cell) (rows (filter_valid_samples df)) =
  if decide (valid_cell df cell) then filter (λ r, sample_id r = cell) (rows df) else [].
Proof.
  intros Hreg. rewrite filter_valid_samples_rows by done. cbn.
  rewrite list_filter_filter. case_decide as Hvalid.
  - apply list_filter_iff. intros r. split; [tauto|]. intros ->. done.
  - induction (rows df) as [|r rs IH]; [done|].
    rewrite filter_cons. case_decide as Hr; [|done]. destruct Hr as [-> ?]. done.
Qed.

Lemma filter_valid_samples_region_set df cell :
  has_region df = true →
  cell_region_set (filter_valid_samples df) cell =
  if decide (valid_cell df cell) then cell_region_set df cell else ∅.
Proof.
  intros Hreg. unfold cell_region_set. rewrite filter_valid_samples_cell by done.
  by case_decide.
Qed.

(** X6: the validity filter is idempotent: a table that went through it is
    left as it is by a second pass. *)
Theorem filter_valid_samples_idempotent df :
  filter_valid_samples (filter_valid_samples df) = filter_valid_samples df.
Proof.
  destruct (has_region df) eqn:Hreg.
  - pose proof (filter_valid_samples_rows df Hreg) as Hrows.
    pose proof (filter_valid_samples_region_set df) as Hset.
    destruct (filter_valid_samples df) as [hr rs]. simplify_eq.
    rewrite filter_valid_samples_rows by done. cbn. f_equal.
    rewrite list_filter_filter. apply list_filter_iff. intros r.
    unfold valid_cell at 1. rewrite Hset by done.
    case_decide; [tauto|]. rewrite size_empty. split; [intros [? ?]; lia|tauto].
  - unfold filter_valid_samples. by rewrite Hreg, Hreg.
Qed.

(** X7: on a table with regions the validity filter drops or keeps a cell as
    a whole: a row that is kept was a row of the table, its cell keeps
    every row it had, in their order, and still has at least two regions
    after the filter. *)
Theorem filter_valid_samples_keeps_whole_cells df r :
  has_region df = true →
  r ∈ rows (filter_valid_samples df) →
  r ∈ rows df ∧
  filter (λ r', sample_id r' = sample_id r) (rows (filter_valid_samples df)) =
    filter (λ r', sample_id r' = sample_id r) (rows df) ∧
  (2 ≤ size (cell_region_set (filter_valid_samples df) (sample_id r)))%nat.
Proof.
  intros Hreg Hr.
  assert (r ∈ rows df ∧ valid_cell df (sample_id r)) as [Hin Hvalid].
  { rewrite filter_valid_samples_rows in Hr by done. cbn in Hr.
    apply list_elem_of_filter in Hr. tauto. }
  split; [done|].
  rewrite filter_valid_samples_cell, filter_valid_samples_region_set by done.
  by rewrite !decide_True.
Qed.

Lemma filter_valid_samples_keeps_whole_cells_witness :
  sample 1 4 5 6 "REGION_B" ∈ rows two_cells_samples ∧
  filter (λ r', sample_id r' = 1) (rows (filter_valid_samples two_cells_samples)) =
    filter (λ r', sample_id r' = 1) (rows two_cells_samples) ∧
  (2 ≤ size (cell_region_set (filter_valid_samples two_cells_samples) 1))%nat.
Proof.
  apply (filter_valid_samples_keeps_whole_cells two_cells_samples (sample 1 4 5 6 "REGION_B")).
  - reflexivity.
  - vm_compute. set_solver.
Defined.

(** ** Cells and locations by region *)

Lemma traverse_Forall2 {A B} (f : A → result B) (l : list A) bs :
  traverse f l = Ok bs → Forall2 (λ a b, f a = Ok b) l bs.
Proof.
  revert bs. induction l as [|a l IH]; intros bs; cbn; [intros [= <-]; constructor|].
  destruct (f a) as [b|] eqn:Hb; [|done]. cbn.
  destruct (traverse f l) as [bs'|]; [|done]. cbn.
  intros [= <-]. constructor; [done|by apply IH].
Qed.

Lemma get_cell_regions_inv config samples reference regions :
  get_cell_regions config samples reference = Ok regions →
  (λ r, (region_region r, region_voxels r)) <$> regions =
  (λ kg, (kg.1, len (rows kg.2))) <$> groupby_region samples.
Proof.
  unfold get_cell_regions. intros Hall%traverse_Forall2.
  induction Hall as [|[region group] r ? ? Hr ? IH]; [done|].
  cbn. rewrite IH. f_equal.
  destruct (get_cell_criticals config group reference region); by simplify_eq/=.
Qed.

Lemma convert_to_cell_inv config new_id samples reference cell :
  convert_to_cell config new_id samples reference = Ok cell →
  cell_id cell = new_id ∧
  cell_voxels cell = len (rows samples) ∧
  get_cell_criticals config samples reference "DEFAULT" = Ok (cell_criticals cell) ∧
  get_cell_phase (inject_Z (len (rows samples))) (cell_criticals cell).1 =
    Ok (cell_state cell, cell_phase cell) ∧
  if has_region samples
  then ∃ regions, cell_regions cell = Some regions ∧
                  get_cell_regions config samples reference = Ok regions
  else cell_regions cell = None.
Proof.
  unfold convert_to_cell.
  destruct (get_cell_criticals config samples reference "DEFAULT") as [[cv ch]|] eqn:Hcriticals;
    [|done].
  rewrite result_bind_Ok.
  destruct (get_cell_phase (inject_Z (len (rows samples))) cv) as [[state phase]|] eqn:Hphase;
    [|done].
  rewrite result_bind_Ok.
  destruct (has_region samples).
  - destruct (get_cell_regions config samples reference) as [regions|]; [|done].
    cbn. intros [= <-]. cbn. split_and!; [done..|]. by exists regions.
  - cbn. intros [= <-]. cbn. by split_and!.
Qed.

Lemma sum_length_groups {K} `{EqDecision K} (le : relation K) `{∀ a b, Decision (le a b)}
    (by_ : Sample → K) df :
  foldr Z.add 0 ((λ kg, len (rows kg.2)) <$> Pandas.groupby le by_ df) = len (rows df).
Proof.
  unfold len. rewrite <-(length_groupby_groups le by_ df).
  induction (Pandas.groupby le by_ df) as [|kg l IH]; [done|]. cbn. rewrite IH. lia.
Qed.

(** X8: the regions of a cell partition its voxels.  When a table with
    regions converts to a cell, the cell has a region list, every region in
    it has at least one voxel, and the voxel counts of the regions add up to
    the voxel count of the cell. *)
Theorem cell_regions_partition_voxels config new_id samples reference cell :
  convert_to_cell config new_id samples reference = Ok cell →
  has_region samples = true →
  ∃ regions,
    cell_regions cell = Some regions ∧
    Forall (λ r, 0 < region_voxels r) regions ∧
    foldr Z.add 0 (region_voxels <$> regions) = cell_voxels cell.
Proof.
  intros (_ & Hvoxels & _ & _ & Hregions)%convert_to_cell_inv Hreg.
  rewrite Hreg in Hregions. destruct Hregions as (regions & Hsome & Hinv%get_cell_regions_inv).
  exists regions. split; [done|].
  assert (region_voxels <$> regions = (λ kg, len (rows kg.2)) <$> groupby_region samples)
    as Hcounts.
  { apply (f_equal (fmap snd)) in Hinv. rewrite <-!list_fmap_compose in Hinv.
    exact Hinv. }
  split.
  - apply (Forall_fmap region_voxels (λ v, 0 < v)). rewrite Hcounts.
    apply Forall_fmap, Forall_forall.
    intros [k g] Hin. cbn.
    apply (groupby_group_nonempty Pandas.str_le sample_region) in Hin.
    unfold len. destruct (rows g); [done|]. cbn. lia.
  - rewrite Hcounts, Hvoxels. apply sum_length_groups.
Qed.

Lemma nucleus_first_convertible :
  ∃ cell, convert_to_cell (example_config ["DEFAULT"; "NUCLEUS"]) 1 nucleus_first_samples ∅
            = Ok cell.
Proof.
  destruct (convert_to_cell_Ok (example_config ["DEFAULT"; "NUCLEUS"]) 1
              nucleus_first_samples ∅) as (cell & Hcell & _); [| |by exists cell].
  - apply example_config_defined. set_solver.
  - intros _ region Hin. apply example_config_defined. cbn in Hin. set_solver.
Qed.

Lemma cell_regions_partition_voxels_witness :
  ∃ cell regions,
    convert_to_cell (example_config ["DEFAULT"; "NUCLEUS"]) 1 nucleus_first_samples ∅
      = Ok cell ∧
    cell_regions cell = Some regions ∧
    Forall (λ r, 0 < region_voxels r) regions ∧
    foldr Z.add 0 (region_voxels <$> regions) = cell_voxels cell.
Proof.
  destruct nucleus_first_convertible as [cell Hcell]. exists cell.
  destruct (cell_regions_partition_voxels _ _ _ _ _ Hcell eq_refl) as (regions & H).
  by exists regions.
Defined.

Lemma convert_to_location_inv new_id samples location :
  convert_to_location new_id samples = Ok location →
  location_id location = new_id ∧
  make_location_center samples = Ok (location_center location) ∧
  location_location location =
    if has_region samples
    then (λ kg, {| entry_region := kg.1; entry_voxels := make_location_voxels kg.2 |})
           <$> groupby_region samples
    else [ {| entry_region := "UNDEFINED"; entry_voxels := make_location_voxels samples |} ].
Proof.
  unfold convert_to_location.
  destruct (make_location_center samples) as [center|]; [|done].
  rewrite result_bind_Ok. intros [= <-]. cbn. split_and!; [done..|].
  destruct (has_region samples); cbn; [|done].
  apply list_fmap_ext. by intros _ [? ?] _.
Qed.

(** X9: the .CELLS and the .LOCATIONS entry of a cell agree region by
    region.  When a table with regions converts to a cell and to a location,
    the region list of the cell and the entries of the location name the
    same regions in the same order, and the voxel count of each region of
    the cell is the number of voxel triples of its entry in the location. *)
Theorem cell_and_location_agree_by_region config new_id samples reference cell location :
  convert_to_cell config new_id samples reference = Ok cell →
  convert_to_location new_id samples = Ok location →
  has_region samples = true →
  ∃ regions,
    cell_regions cell = Some regions ∧
    (λ r, (region_region r, region_voxels r)) <$> regions =
    (λ e, (entry_region e, len (entry_voxels e))) <$> location_location location.
Proof.
  intros (_ & _ & _ & _ & Hregions)%convert_to_cell_inv
    (_ & _ & Hentries)%convert_to_location_inv Hreg.
  rewrite Hreg in Hregions, Hentries.
  destruct Hregions as (regions & Hsome & Hinv%get_cell_regions_inv).
  exists regions. split; [done|]. rewrite Hinv, Hentries, <-list_fmap_compose.
  apply list_fmap_ext. intros _ [k g] _. cbn. unfold len.
  by rewrite length_make_location_voxels.
Qed.

Lemma cell_and_location_agree_by_region_witness :
  ∃ cell location regions,
    convert_to_cell (example_config ["DEFAULT"; "NUCLEUS"]) 1 nucleus_first_samples ∅
      = Ok cell ∧
    convert_to_location 1 nucleus_first_samples = Ok location ∧
    cell_regions cell = Some regions ∧
    (λ r, (region_region r, region_voxels r)) <$> regions =
    (λ e, (entry_region e, len (entry_voxels e))) <$> location_location location.
Proof.
  destruct nucleus_first_convertible as [cell Hcell]. exists cell.
  destruct (convert_to_location_Ok 1 nucleus_first_samples) as (location & Hloc & _);
    [discriminate|]. exists location.
  destruct (cell_and_location_agree_by_region _ _ _ _ _ _ Hcell Hloc eq_refl)
    as (regions & H).
  by exists regions.
Defined.

(** ** The conversion loop, further *)

Section conversion_loop_inv.
Context (config : Config) (reference : gmap Z (gmap string Q)).

Lemma convert_loop_inv groups i locations cells cells' locations' :
  convert_loop config reference i groups locations cells = Ok (cells', locations') →
  ∃ cs ls,
    cells' = cells ++ cs ∧ locations' = locations ++ ls ∧
    length cs = length groups ∧ length ls = length groups ∧
    ∀ j k g, groups !! j = Some (k, g) →
      ∃ cell location,
        cs !! j = Some cell ∧ ls !! j = Some location ∧
        convert_to_cell config (i + Z.of_nat j + 1) g (default ∅ (reference !! k)) = Ok cell ∧
        convert_to_location (i + Z.of_nat j + 1) g = Ok location.
Proof.
  revert i locations cells.
  induction groups as [|[k g] groups IH]; intros i locations cells; cbn [convert_loop].
  - intros [= <- <-]. exists [], []. rewrite !app_nil_r. split_and!; [done..|].
    intros j ? ? Hj. by rewrite lookup_nil in Hj.
  - destruct (convert_to_cell config (i + 1) g (default ∅ (reference !! k)))
      as [cell|] eqn:Hcell; [|done]. rewrite result_bind_Ok.
    destruct (convert_to_location (i + 1) g) as [location|] eqn:Hloc; [|done].
    rewrite result_bind_Ok.
    intros (cs & ls & -> & -> & Hlc & Hll & Hall)%IH.
    exists (cell :: cs), (location :: ls). rewrite <-!app_assoc. cbn.
    split_and!; [done|done|congruence|congruence|].
    intros [|j] k' g' Hj; cbn in Hj.
    + simplify_eq. exists cell, location. replace (i + Z.of_nat 0 + 1) with (i + 1) by lia. done.
    + destruct (Hall j k' g' Hj) as (c & l & ? & ? & ? & ?). exists c, l.
      replace (i + Z.of_nat (S j) + 1) with (i + 1 + Z.of_nat j + 1) by lia. done.
Qed.

Lemma convert_loop_raise groups i locations cells k g e :
  groups !! 0%nat = Some (k, g) →
  convert_to_cell config (i + 1) g (default ∅ (reference !! k)) = Raise e →
  convert_loop config reference i groups locations cells = Raise e.
Proof.
  destruct groups as [|[k' g'] groups]; [done|]. intros [= -> ->] Hcell.
  cbn [convert_loop]. by rewrite Hcell.
Qed.

End conversion_loop_inv.

Lemma convert_loop_reference_ext config reference reference' groups i locations cells :
  (∀ k, k ∈ groups.*1 → reference !! k = reference' !! k) →
  convert_loop config reference i groups locations cells =
  convert_loop config reference' i groups locations cells.
Proof.
  revert i locations cells.
  induction groups as [|[k g] groups IH]; intros i locations cells Hagree;
    cbn [convert_loop]; [done|].
  rewrite (Hagree k) by (cbn; by left).
  destruct (convert_to_cell config (i + 1) g (default ∅ (reference' !! k))); [|done].
  rewrite !result_bind_Ok.
  destruct (convert_to_location (i + 1) g); [|done].
  rewrite !result_bind_Ok. apply IH. intros k' Hk'. apply Hagree. cbn. by right.
Qed.

(** X10: what a successful conversion returns, whatever the statistics.
    When [convert_arcade] converts a table, it returns one cell and one
    location per distinct sample id, and the i-th cell and the i-th location
    (from 0) are the results of [convert_to_cell] and [convert_to_location]
    on the i-th group with the new id i + 1, the cell read against the
    reference row of the original id of the group. *)
Theorem convert_samples_by_group config samples reference cells locations :
  convert_samples config samples reference = Ok (cells, locations) →
  length cells = length (groupby_id samples) ∧
  length locations = length (groupby_id samples) ∧
  ∀ i original_id group,
    groupby_id samples !! i = Some (original_id, group) →
    ∃ cell location,
      cells !! i = Some cell ∧ locations !! i = Some location ∧
      convert_to_cell config (Z.of_nat i + 1) group (default ∅ (reference !! original_id))
        = Ok cell ∧
      convert_to_location (Z.of_nat i + 1) group = Ok location.
Proof.
  unfold convert_samples.
  intros (cs & ls & -> & -> & Hlc & Hll & Hall)%convert_loop_inv. cbn.
  split_and!; [done..|]. intros i k g Hi.
  destruct (Hall i k g Hi) as (c & l & ? & ? & ? & ?). by exists c, l.
Qed.

Lemma convert_samples_by_group_witness :
  ∃ cells locations,
    convert_samples (example_config ["DEFAULT"; "REGION_A"; "REGION_B"; "REGION_C"])
      two_cells_samples ∅ = Ok (cells, locations) ∧
    length cells = length (groupby_id two_cells_samples) ∧
    length locations = length (groupby_id two_cells_samples) ∧
    ∀ i original_id group,
      groupby_id two_cells_samples !! i = Some (original_id, group) →
      ∃ cell location,
        cells !! i = Some cell ∧ locations !! i = Some location ∧
        convert_to_cell (example_config ["DEFAULT"; "REGION_A"; "REGION_B"; "REGION_C"])
          (Z.of_nat i + 1) group (default ∅ ((∅ : gmap Z (gmap string Q)) !! original_id))
          = Ok cell ∧
        convert_to_location (Z.of_nat i + 1) group = Ok location.
Proof.
  destruct (convert_samples (example_config ["DEFAULT"; "REGION_A"; "REGION_B"; "REGION_C"])
              two_cells_samples ∅) as [[cells locations]|] eqn:Hconv;
    [|vm_compute in Hconv; discriminate].
  exists cells, locations. split; [done|].
  exact (convert_samples_by_group _ _ _ _ _ Hconv).
Defined.

(** X11: the reference rows of cells that the table does not have are never
    read.  Two references that hold the same row for every sample id of the
    table give the same conversion, result or exception. *)
Theorem convert_samples_reference_of_the_table config samples reference reference' :
  (∀ k, k ∈ sample_id <$> rows samples → reference !! k = reference' !! k) →
  convert_samples config samples reference = convert_samples config samples reference'.
Proof.
  intros Hagree. unfold convert_samples. apply convert_loop_reference_ext.
  intros k (r & Hr & <-)%(elem_of_groupby_keys Z.le sample_id). apply Hagree.
  apply list_elem_of_fmap. by exists r.
Qed.

Lemma convert_samples_reference_of_the_table_witness :
  convert_samples (example_config ["DEFAULT"]) five_samples ∅ =
  convert_samples (example_config ["DEFAULT"]) five_samples {[ 2 := {[ "volume" := 7%Q ]} ]}.
Proof.
  apply (convert_samples_reference_of_the_table (example_config ["DEFAULT"]) five_samples
           ∅ {[ 2 := {[ "volume" := 7%Q ]} ]}).
  intros k Hk. cbn in Hk.
  assert (k = 1) as -> by set_solver. reflexivity.
Defined.

(** X12: the conversion at its edges.  A table without rows converts to an
    empty cell list and an empty location list, whatever the statistics; a
    table with rows, when the statistics have no mean volume for the whole
    cell, raises [KeyError] on ["DEFAULT"] and returns nothing, whatever the
    reference holds. *)
Theorem convert_samples_edges config samples reference :
  (rows samples = [] → convert_samples config samples reference = Ok ([], [])) ∧
  (rows samples ≠ [] → VOLUME_MU config !! "DEFAULT" = None →
   convert_samples config samples reference = Raise (KeyError "DEFAULT")).
Proof.
  unfold convert_samples, groupby_id. split.
  - intros Hrows. unfold Pandas.groupby. by rewrite Hrows.
  - intros Hrows Hmu.
    destruct (Pandas.groupby Z.le sample_id samples) as [|[k g] groups] eqn:Hgroups.
    { destruct (rows samples) as [|r rs] eqn:Hr; [done|].
      assert (sample_id r ∈ (Pandas.groupby Z.le sample_id samples).*1) as Hin.
      { apply elem_of_groupby_keys. exists r. rewrite Hr. split; [by left|done]. }
      rewrite Hgroups in Hin. by apply elem_of_nil in Hin. }
    apply (convert_loop_raise _ _ _ _ _ _ k g); [done|].
    unfold convert_to_cell, get_cell_criticals, dict_getitem. cbv zeta.
    destruct (default ∅ (reference !! k) !! _) as [v|] eqn:Hv; cbn;
      [rewrite decide_True by eauto
      |rewrite decide_False by (intros [? ?]; done)]; cbn; by rewrite Hmu.
Qed.

Lemma convert_samples_edges_witness :
  convert_samples (example_config []) five_samples ∅ = Raise (KeyError "DEFAULT").
Proof.
  apply (proj2 (convert_samples_edges (example_config []) five_samples ∅)).
  - discriminate.
  - reflexivity.
Defined.

(** ** The region merge *)

Lemma merge_region_rows samples region_samples region :
  has_region samples = false →
  merge_region samples region_samples region =
    Ok {| has_region := true;
          rows := left ← rows samples;
                  replicate (Nat.max 1 (length (region_matches region_samples left)))
                            (with_region (merged_region region_samples region left) left) |}.
Proof.
  intros Hreg. unfold merge_region. rewrite Hreg. do 2 f_equal.
  apply list_bind_ext; [|done]. intros left.
  unfold merged_region, region_matches.
  destruct (filter (same_voxel left) (rows region_samples)) as [|m ms]; [done|].
  rewrite decide_False by done.
  change (Nat.max 1 (length (m :: ms))) with (length (m :: ms)).
  generalize (m :: ms). intros l. induction l as [|? ? IH]; [done|]. cbn. by rewrite IH.
Qed.

Lemma merge_region_inv samples region_samples region df :
  merge_region samples region_samples region = Ok df → has_region samples = false.
Proof. unfold merge_region. by destruct (has_region samples). Qed.

Lemma merge_region_elem_of samples region_samples region df r :
  merge_region samples region_samples region = Ok df →
  r ∈ rows df ↔
  ∃ left, left ∈ rows samples ∧
          r = with_region (merged_region region_samples region left) left.
Proof.
  intros Hmerge. pose proof (merge_region_inv _ _ _ _ Hmerge) as Hreg.
  rewrite merge_region_rows in Hmerge by done. injection Hmerge as <-. cbn.
  rewrite list_elem_of_bind. split.
  - intros (left & Hr%elem_of_replicate & Hleft). exists left. tauto.
  - intros (left & Hleft & ->). exists left. split; [|done].
    apply elem_of_replicate. split; [done|lia].
Qed.

(** X13: the region merge on a region table that lists no voxel twice.  The
    merge keeps the rows of the samples, each once and in their order, and
    writes the region cell of each: the region that was asked for when the
    voxel (id, x, y, z) is in the region table, ["DEFAULT"] when it is
    not. *)
Theorem merge_region_tags_rows samples region_samples region :
  has_region samples = false →
  (∀ left, left ∈ rows samples → (length (region_matches region_samples left) ≤ 1)%nat) →
  merge_region samples region_samples region =
    Ok {| has_region := true;
          rows := (λ left, with_region (merged_region region_samples region left) left)
                    <$> rows samples |}.
Proof.
  intros Hreg Hone. rewrite merge_region_rows by done. do 2 f_equal.
  induction (rows samples) as [|left l IH]; [done|]. cbn.
  rewrite IH by (intros; apply Hone; by right).
  specialize (Hone left (list_elem_of_here _ _)).
  by replace (Nat.max 1 (length (region_matches region_samples left))) with 1%nat by lia.
Qed.

Lemma merge_region_tags_rows_witness :
  merge_region plain_cells nucleus_voxels "NUCLEUS" =
    Ok {| has_region := true;
          rows := (λ left, with_region (merged_region nucleus_voxels "NUCLEUS" left) left)
                    <$> rows plain_cells |}.
Proof.
  apply (merge_region_tags_rows plain_cells nucleus_voxels "NUCLEUS").
  - reflexivity.
  - intros left Hleft. cbn in Hleft.
    repeat (apply elem_of_cons in Hleft as [->|Hleft]; [vm_compute; lia|]).
    by apply elem_of_nil in Hleft.
Defined.

Lemma length_bind_replicate {A} (n : A → nat) (f : A → A) (l : list A) :
  length (a ← l; replicate (n a) (f a)) = sum_list (n <$> l).
Proof.
  induction l as [|a l IH]; [done|]. cbn. by rewrite length_app, length_replicate, IH.
Qed.

Lemma sum_list_max_one {A} (n : A → nat) (l : list A) :
  (length l ≤ sum_list ((λ a, Nat.max 1 (n a)) <$> l))%nat ∧
  (sum_list ((λ a, Nat.max 1 (n a)) <$> l) = length l ↔ ∀ a, a ∈ l → (n a ≤ 1)%nat).
Proof.
  induction l as [|a l [IH1 IH2]]; cbn.
  - split; [lia|]. split; [|done]. intros _ a Ha. by apply elem_of_nil in Ha.
  - split; [lia|]. split.
    + intros Hsum a' [->|Ha']%elem_of_cons; [lia|]. apply IH2; [lia|done].
    + intros Hall. assert (n a ≤ 1)%nat by (apply Hall; by left).
      assert (sum_list ((λ a, Nat.max 1 (n a)) <$> l) = length l) as ->; [|lia].
      apply IH2. intros; apply Hall; by right.
Qed.

(** X14: the region merge never loses a row, and repeats those whose voxel
    the region table lists more than once: the merged table has at least
    the rows of the samples, and exactly as many if and only if no voxel of
    the samples is listed twice in the region table. *)
Theorem merge_region_row_count samples region_samples region df :
  merge_region samples region_samples region = Ok df →
  (length (rows samples) ≤ length (rows df))%nat ∧
  (length (rows df) = length (rows samples) ↔
   ∀ left, left ∈ rows samples → (length (region_matches region_samples left) ≤ 1)%nat).
Proof.
  intros Hmerge. pose proof (merge_region_inv _ _ _ _ Hmerge) as Hreg.
  rewrite merge_region_rows in Hmerge by done. injection Hmerge as <-. cbn.
  rewrite (length_bind_replicate
             (λ left, Nat.max 1 (length (region_matches region_samples left)))
             (λ left, with_region (merged_region region_samples region left) left)).
  apply sum_list_max_one.
Qed.

Lemma merge_region_row_count_witness :
  ∃ df,
    merge_region plain_cells nucleus_voxels "NUCLEUS" = Ok df ∧
    (length (rows plain_cells) ≤ length (rows df))%nat ∧
    (length (rows df) = length (rows plain_cells) ↔
     ∀ left, left ∈ rows plain_cells →
       (length (region_matches nucleus_voxels left) ≤ 1)%nat).
Proof.
  eexists. split; [reflexivity|].
  apply (merge_region_row_count plain_cells nucleus_voxels "NUCLEUS"). reflexivity.
Defined.

Lemma merge_region_region_set samples region_samples region df cell :
  merge_region samples region_samples region = Ok df →
  cell_region_set df cell ⊆ {[ region; "DEFAULT" ]}.
Proof.
  intros Hmerge name. unfold cell_region_set. rewrite elem_of_list_to_set.
  intros (r & -> & [_ Hr]%list_elem_of_filter)%list_elem_of_fmap.
  apply (merge_region_elem_of _ _ _ _ _ Hmerge) in Hr as (left & _ & ->). cbn.
  unfold merged_region. case_decide; set_solver.
Qed.

Lemma elem_of_cell_region_set df cell name :
  name ∈ cell_region_set df cell ↔
  ∃ r, r ∈ rows df ∧ sample_id r = cell ∧ sample_region r = name.
Proof.
  unfold cell_region_set. rewrite elem_of_list_to_set, list_elem_of_fmap.
  setoid_rewrite list_elem_of_filter. naive_solver.
Qed.

(** X15: the region merge followed by the validity filter.  The cells that
    remain are those with a voxel in the region table and a voxel out of
    it: each has exactly the two regions, the one that was asked for and
    ["DEFAULT"].  When the region that is asked for is ["DEFAULT"] itself,
    no cell remains. *)
Theorem merge_region_then_filter samples region_samples region df :
  merge_region samples region_samples region = Ok df →
  (region = "DEFAULT" → rows (filter_valid_samples df) = []) ∧
  ∀ r, r ∈ rows (filter_valid_samples df) →
    cell_region_set (filter_valid_samples df) (sample_id r) = {[ region; "DEFAULT" ]} ∧
    (∃ inside, inside ∈ rows samples ∧ sample_id inside = sample_id r ∧
               region_matches region_samples inside ≠ []) ∧
    (∃ outside, outside ∈ rows samples ∧ sample_id outside = sample_id r ∧
                region_matches region_samples outside = []).
Proof.
  intros Hmerge.
  assert (has_region df = true) as Hreg.
  { unfold merge_region in Hmerge. destruct (has_region samples); by simplify_eq. }
  assert (∀ r, r ∈ rows (filter_valid_samples df) →
            region ≠ "DEFAULT" ∧ cell_region_set df (sample_id r) = {[ region; "DEFAULT" ]} ∧
            valid_cell df (sample_id r)) as Hkept.
  { intros r Hr. rewrite filter_valid_samples_rows in Hr by done. cbn in Hr.
    apply list_elem_of_filter in Hr as [Hvalid _].
    pose proof (merge_region_region_set _ _ _ _ (sample_id r) Hmerge) as Hsub.
    unfold valid_cell in Hvalid.
    assert (region ≠ "DEFAULT") as Hne.
    { intros ->. apply subseteq_size in Hsub.
      rewrite (union_idemp_L {[ "DEFAULT" ]}), size_singleton in Hsub. lia. }
    split; [done|]. split; [|done].
    apply set_subseteq_size_eq; [done|].
    rewrite size_union, !size_singleton by set_solver. done. }
  split.
  - intros ->. destruct (rows (filter_valid_samples df)) as [|r rs] eqn:Hrows; [done|].
    destruct (Hkept r) as [? _]; [by left|done].
  - intros r Hr. destruct (Hkept r Hr) as (Hne & Hset & Hvalid).
    rewrite filter_valid_samples_region_set, decide_True by done. split; [done|].
    split.
    + assert (region ∈ cell_region_set df (sample_id r)) as Hin by (rewrite Hset; set_solver).
      apply elem_of_cell_region_set in Hin as (r' & Hr' & Hid & Hname).
      apply (merge_region_elem_of _ _ _ _ _ Hmerge) in Hr' as (left & Hleft & ->).
      exists left. split; [done|]. split; [done|]. cbn in Hname.
      unfold merged_region in Hname. case_decide; [by subst|done].
    + assert ("DEFAULT" ∈ cell_region_set df (sample_id r)) as Hin
        by (rewrite Hset; set_solver).
      apply elem_of_cell_region_set in Hin as (r' & Hr' & Hid & Hname).
      apply (merge_region_elem_of _ _ _ _ _ Hmerge) in Hr' as (left & Hleft & ->).
      exists left. split; [done|]. split; [done|]. cbn in Hname.
      unfold merged_region in Hname. case_decide; [done|by subst].
Qed.

Lemma merge_region_then_filter_witness :
  ∃ df,
    merge_region plain_cells nucleus_voxels "NUCLEUS" = Ok df ∧
    sample_id <$> rows (filter_valid_samples df) = [1; 1; 1] ∧
    ∀ r, r ∈ rows (filter_valid_samples df) →
      cell_region_set (filter_valid_samples df) (sample_id r) = {[ "NUCLEUS"; "DEFAULT" ]} ∧
      (∃ inside, inside ∈ rows plain_cells ∧ sample_id inside = sample_id r ∧
                 region_matches nucleus_voxels inside ≠ []) ∧
      (∃ outside, outside ∈ rows plain_cells ∧ sample_id outside = sample_id r ∧
                  region_matches nucleus_voxels outside = []).
Proof.
  eexists. split; [reflexivity|]. split; [reflexivity|].
  apply (merge_region_then_filter plain_cells nucleus_voxels "NUCLEUS"). reflexivity.
Defined.

(** ** The files of a conversion *)

Lemma population_regions_make attrib (names : list string) :
  population_regions
    (Elem "population" attrib
       ((λ region, Elem "population.region" [("id", region); ("fraction", "0.5")] [])
          <$> names)) = names.
Proof.
  unfold population_regions, findall. cbn [element_children].
  induction names as [|region names IH]; [done|].
  cbn in *. rewrite decide_True by done. cbn. by f_equal.
Qed.

Lemma setup_population_make samples length width height terms setup :
  make_setup_file samples length width height terms = Ok setup →
  ∃ population,
    setup_population setup = Some population ∧
    get "id" population = Some "X" ∧
    get "init" population =
      Some (pretty (len (Pandas.unique (sample_id <$> rows samples)))) ∧
    population_regions population =
      if has_region samples then Pandas.unique (sample_region <$> rows samples) else [].
Proof.
  unfold make_setup_file.
  destruct (py_int height) as [h|]; [|done]. rewrite result_bind_Ok.
  destruct (py_int length) as [l|]; [|done]. rewrite result_bind_Ok.
  destruct (py_int width) as [w|]; [|done]. rewrite result_bind_Ok.
  intros [= <-]. eexists. split; [reflexivity|]. split; [reflexivity|].
  split; [reflexivity|].
  destruct (has_region samples); [|done]. apply population_regions_make.
Qed.

Lemma convert_samples_inv config samples reference cells locations :
  convert_samples config samples reference = Ok (cells, locations) →
  length cells = length (Pandas.unique (sample_id <$> rows samples)) ∧
  length locations = length cells ∧
  (∀ cell, cell ∈ cells →
     ∃ new_id k, convert_to_cell config new_id (select (λ r, sample_id r = k) samples)
                   (default ∅ (reference !! k)) = Ok cell ∧
                 ∃ r, r ∈ rows samples ∧ sample_id r = k) ∧
  (∀ location, location ∈ locations →
     ∃ new_id k, convert_to_location new_id (select (λ r, sample_id r = k) samples)
                   = Ok location ∧
                 ∃ r, r ∈ rows samples ∧ sample_id r = k) ∧
  (∀ r, r ∈ rows samples →
     ∃ new_id cell location,
       cell ∈ cells ∧ location ∈ locations ∧
       convert_to_cell config new_id (select (λ r', sample_id r' = sample_id r) samples)
         (default ∅ (reference !! sample_id r)) = Ok cell ∧
       convert_to_location new_id (select (λ r', sample_id r' = sample_id r) samples)
         = Ok location).
Proof.
  unfold convert_samples.
  intros (cs & ls & -> & -> & Hlc & Hll & Hall)%convert_loop_inv. cbn.
  split; [by rewrite Hlc; apply length_groupby|]. split; [congruence|].
  split; [|split].
  - intros cell (i & Hi)%list_elem_of_lookup_1.
    destruct (lookup_lt_is_Some_2 (groupby_id samples) i) as [[k g] Hg].
    { rewrite <-Hlc. by eapply lookup_lt_Some. }
    destruct (Hall i k g Hg) as (c & l & ? & ? & ? & ?). simplify_eq.
    apply list_elem_of_lookup_2, (elem_of_groupby Z.le sample_id) in Hg as [-> ?].
    exists (Z.of_nat i + 1), k. by split.
  - intros location (i & Hi)%list_elem_of_lookup_1.
    destruct (lookup_lt_is_Some_2 (groupby_id samples) i) as [[k g] Hg].
    { rewrite <-Hll. by eapply lookup_lt_Some. }
    destruct (Hall i k g Hg) as (c & l & ? & ? & ? & ?). simplify_eq.
    apply list_elem_of_lookup_2, (elem_of_groupby Z.le sample_id) in Hg as [-> ?].
    exists (Z.of_nat i + 1), k. by split.
  - intros r Hr.
    assert ((sample_id r, select (λ r', sample_id r' = sample_id r) samples)
              ∈ groupby_id samples) as (i & Hi)%list_elem_of_lookup_1.
    { apply (elem_of_groupby Z.le sample_id). eauto. }
    destruct (Hall i _ _ Hi) as (c & l & ? & ? & ? & ?).
    exists (Z.of_nat i + 1), c, l. split_and!; [by eapply list_elem_of_lookup_2..|done|done].
Qed.

Lemma convert_to_cell_region_names config new_id samples reference cell name :
  convert_to_cell config new_id samples reference = Ok cell →
  name ∈ region_region <$> default [] (cell_regions cell) ↔
  has_region samples = true ∧ ∃ r, r ∈ rows samples ∧ sample_region r = name.
Proof.
  intros (_ & _ & _ & _ & Hregions)%convert_to_cell_inv.
  destruct (has_region samples).
  - destruct Hregions as (regions & -> & Hinv%get_cell_regions_inv). cbn.
    apply (f_equal (fmap fst)) in Hinv. rewrite <-!list_fmap_compose in Hinv.
    change (region_region <$> regions = (groupby_region samples).*1) in Hinv.
    rewrite Hinv. unfold groupby_region. rewrite elem_of_groupby_keys. naive_solver.
  - rewrite Hregions. cbn. rewrite elem_of_nil. naive_solver.
Qed.

Lemma convert_to_location_voxels new_id samples location name voxel :
  convert_to_location new_id samples = Ok location →
  (∃ entry, entry ∈ location_location location ∧
            entry_region entry = name ∧ voxel ∈ entry_voxels entry) ↔
  (∃ r, r ∈ rows samples ∧ voxel = voxel_of r ∧ name = listed_region samples r).
Proof.
  intros (_ & _ & ->)%convert_to_location_inv. unfold listed_region.
  destruct (has_region samples).
  - setoid_rewrite list_elem_of_fmap. split.
    + intros (entry & ([k g] & -> & [-> _]%elem_of_groupby) & <- & Hvoxel). cbn in *.
      apply list_elem_of_fmap in Hvoxel as (r & -> & [? ?]%list_elem_of_filter).
      by exists r.
    + intros (r & Hr & -> & ->).
      exists {| entry_region := sample_region r;
                entry_voxels := make_location_voxels
                  (select (λ r', sample_region r' = sample_region r) samples) |}.
      split; [|split; [done|]].
      * exists (sample_region r, select (λ r', sample_region r' = sample_region r) samples).
        split; [done|]. apply elem_of_groupby. eauto.
      * cbn. apply list_elem_of_fmap. exists r. split; [done|].
        by apply list_elem_of_filter.
  - setoid_rewrite list_elem_of_singleton. split.
    + intros (entry & -> & <- & Hvoxel). cbn in *.
      apply list_elem_of_fmap in Hvoxel as (r & -> & ?). by exists r.
    + intros (r & Hr & -> & ->). eexists. split; [done|]. split; [done|]. cbn.
      apply list_elem_of_fmap. by exists r.
Qed.

(** X17: the locations hold the voxels of the table, each under its region.
    When a table converts, a voxel triple is listed under a region name in
    some location if and only if it is the truncation of the coordinates of
    a row of the table whose region has this name (["UNDEFINED"] for every
    row of a table without regions). *)
Theorem convert_samples_locations_hold_the_voxels config samples reference cells locations :
  convert_samples config samples reference = Ok (cells, locations) →
  ∀ name voxel,
    (∃ location entry,
       location ∈ locations ∧ entry ∈ location_location location ∧
       entry_region entry = name ∧ voxel ∈ entry_voxels entry) ↔
    (∃ r, r ∈ rows samples ∧ voxel = voxel_of r ∧ name = listed_region samples r).
Proof.
  intros (_ & _ & _ & Hlocations & Hrows)%convert_samples_inv name voxel. split.
  - intros (location & entry & Hlocation & Hentry).
    destruct (Hlocations location Hlocation) as (new_id & k & Hconv & _).
    destruct (proj1 (convert_to_location_voxels _ _ _ name voxel Hconv))
      as (r & [_ Hr]%list_elem_of_filter & ? & ?); [by exists entry|].
    by exists r.
  - intros (r & Hr & Hvoxel & Hname).
    destruct (Hrows r Hr) as (new_id & cell & location & _ & Hlocation & _ & Hconv).
    destruct (proj2 (convert_to_location_voxels _ _ _ name voxel Hconv))
      as (entry & ? & ? & ?).
    + exists r. split; [|done]. cbn. by apply list_elem_of_filter.
    + by exists location, entry.
Qed.

Lemma convert_samples_locations_hold_the_voxels_witness :
  ∃ cells locations,
    convert_samples (example_config ["DEFAULT"; "NUCLEUS"]) nucleus_first_samples ∅
      = Ok (cells, locations) ∧
    ∀ name voxel,
      (∃ location entry,
         location ∈ locations ∧ entry ∈ location_location location ∧
         entry_region entry = name ∧ voxel ∈ entry_voxels entry) ↔
      (∃ r, r ∈ rows nucleus_first_samples ∧ voxel = voxel_of r ∧
            name = listed_region nucleus_first_samples r).
Proof.
  destruct (convert_samples (example_config ["DEFAULT"; "NUCLEUS"]) nucleus_first_samples ∅)
    as [[cells locations]|] eqn:Hconv; [|vm_compute in Hconv; discriminate].
  exists cells, locations. split; [done|].
  exact (convert_samples_locations_hold_the_voxels _ _ _ _ _ Hconv).
Defined.

Section files.
Context (get_step_size : list Q → Q) (config : Config) (terms : list string).

Lemma convert_arcade_files_inv samples_df margins region region_df reference saved e :
  convert_arcade_files get_step_size config terms samples_df margins region region_df
    reference = (saved, e) →
  let '(steps, offsets, bounds) := calculate_sample_transform get_step_size samples_df margins in
  (saved = [] ∧
   ((∃ err, e = Some err ∧
            prepare_samples samples_df steps offsets region region_df = Raise err) ∨
    (∃ err samples, e = Some err ∧
            prepare_samples samples_df steps offsets region region_df = Ok samples ∧
            convert_samples config samples reference = Raise err))) ∨
  (∃ samples cells locations,
     prepare_samples samples_df steps offsets region region_df = Ok samples ∧
     convert_samples config samples reference = Ok (cells, locations) ∧
     ((saved = [SavedCells cells; SavedLocations locations] ∧
       ∃ err, e = Some err ∧
              make_setup_file samples (bounds cx) (bounds cy) (bounds cz) terms = Raise err) ∨
      (∃ setup,
         saved = [SavedCells cells; SavedLocations locations; SavedSetup setup] ∧ e = None ∧
         make_setup_file samples (bounds cx) (bounds cy) (bounds cz) terms = Ok setup))).
Proof.
  unfold convert_arcade_files.
  destruct (calculate_sample_transform get_step_size samples_df margins)
    as [[steps offsets] bounds].
  destruct (prepare_samples samples_df steps offsets region region_df) as [samples|err].
  2:{ intros [= <- <-]. left. split; [done|]. left. by exists err. }
  rewrite result_bind_Ok.
  destruct (convert_samples config samples reference) as [[cells locations]|err] eqn:Hconv.
  2:{ intros [= <- <-]. left. split; [done|]. right. by exists err, samples. }
  rewrite result_bind_Ok.
  destruct (make_setup_file samples (bounds cx) (bounds cy) (bounds cz) terms)
    as [setup|err] eqn:Hsetup;
    intros [= <- <-]; right; exists samples, cells, locations; (split; [done|split; [done|]]).
  - right. by exists setup.
  - left. split; [done|]. by exists err.
Qed.

(** X16: the three files of a conversion agree.  When [convert_arcade]
    completes, it has saved the cells, the locations and the setup file, in
    this order; there are as many locations as cells; the population of the
    setup file declares in its [init] the number of cells of the .CELLS
    file, and its regions are those that the cells of the .CELLS file
    have. *)
Theorem convert_arcade_files_agree samples_df margins region region_df reference saved :
  convert_arcade_files get_step_size config terms samples_df margins region region_df
    reference = (saved, None) →
  ∃ cells locations setup population,
    saved = [SavedCells cells; SavedLocations locations; SavedSetup setup] ∧
    length locations = length cells ∧
    setup_population setup = Some population ∧
    get "init" population = Some (pretty (len cells)) ∧
    ∀ name, name ∈ population_regions population ↔ name ∈ cells_regions cells.
Proof.
  intros Hfiles%convert_arcade_files_inv.
  destruct (calculate_sample_transform get_step_size samples_df margins)
    as [[steps offsets] bounds].
  destruct Hfiles as [[_ [(? & ? & _)|(? & ? & ? & _)]]|Hfiles]; [done..|].
  destruct Hfiles as (samples & cells & locations & _ & Hconv & [(_ & ? & ? & _)|Hsetup]);
    [done|].
  destruct Hsetup as (setup & -> & _ & Hsetup).
  apply setup_population_make in Hsetup as (population & Hpop & _ & Hinit & Hregions).
  apply convert_samples_inv in Hconv as (Hlc & Hll & Hcells & _ & Hrows).
  exists cells, locations, setup, population. split_and!; [done..| |].
  { rewrite Hinit. unfold len. by rewrite Hlc. }
  intros name. rewrite Hregions. unfold cells_regions. rewrite list_elem_of_bind. split.
  - destruct (has_region samples) eqn:Hreg; [|by intros ?%elem_of_nil].
    intros (r & -> & Hr)%elem_of_unique%list_elem_of_fmap.
    destruct (Hrows r Hr) as (new_id & cell & _ & Hcell & _ & Hconv & _).
    exists cell. split; [|done].
    apply (convert_to_cell_region_names _ _ _ _ _ _ Hconv). split; [done|].
    exists r. split; [|done]. cbn. by apply list_elem_of_filter.
  - intros (cell & Hname & Hcell).
    destruct (Hcells cell Hcell) as (new_id & k & Hconv & _).
    apply (convert_to_cell_region_names _ _ _ _ _ _ Hconv) in Hname
      as [Hreg (r & [_ Hr]%list_elem_of_filter & <-)].
    cbn in Hreg. rewrite Hreg. apply elem_of_unique, list_elem_of_fmap. by exists r.
Qed.

End files.

Lemma convert_arcade_files_agree_witness :
  ∃ saved cells locations setup population,
    convert_arcade_files ProcessSamples.get_step_size (example_config ["DEFAULT"; "NUCLEUS"])
      ["volume"; "adhesion"] plain_cells (1, 1, 1) (Some "NUCLEUS") nucleus_voxels ∅
      = (saved, None) ∧
    saved = [SavedCells cells; SavedLocations locations; SavedSetup setup] ∧
    length locations = length cells ∧
    setup_population setup = Some population ∧
    get "init" population = Some (pretty (len cells)) ∧
    ∀ name, name ∈ population_regions population ↔ name ∈ cells_regions cells.
Proof.
  destruct (convert_arcade_files ProcessSamples.get_step_size
              (example_config ["DEFAULT"; "NUCLEUS"]) ["volume"; "adhesion"] plain_cells
              (1, 1, 1) (Some "NUCLEUS") nucleus_voxels ∅) as [saved [e|]] eqn:Hfiles;
    [vm_compute in Hfiles; discriminate|].
  exists saved.
  destruct (convert_arcade_files_agree _ _ _ _ _ _ _ _ _ Hfiles)
    as (cells & locations & setup & population & H).
  exists cells, locations, setup, population. split; [reflexivity|exact H].
Defined.

(** ** The grid of the setup file *)

Lemma transform_value_inv step offset v c :
  transform_value step offset v = Ok c →
  ∃ o, offset = Some o ∧ ¬ (step == 0)%Q ∧ c = (inject_Z (Qtrunc (v / step)) + o)%Q.
Proof.
  unfold transform_value, astype_int32, np_div. cbn.
  case_decide as Hstep; [done|]. case_decide; [|done]. rewrite result_bind_Ok.
  destruct offset as [o|]; [|done]. intros [= <-]. by exists o.
Qed.

Lemma transform_axis_inv steps offsets i df df' :
  transform_axis steps offsets i df = Ok df' →
  has_region df' = has_region df ∧
  Forall2 (λ r r', ∃ o, offsets i = Some o ∧
             r' = set_coord i (inject_Z (Qtrunc (get_coord i r / steps i)) + o)%Q r)
          (rows df) (rows df').
Proof.
  unfold transform_axis.
  destruct (traverse _ _) as [col|] eqn:Hcol; [|done]. rewrite result_bind_Ok.
  intros [= <-]. split; [done|]. cbn. apply traverse_Forall2 in Hcol. unfold column in Hcol.
  apply Forall2_fmap_l in Hcol.
  induction Hcol as [|r c rs cs Hc _ IH]; [constructor|]. cbn. constructor; [|done].
  apply transform_value_inv in Hc as (o & ? & _ & ->). by exists o.
Qed.

Lemma transform_sample_voxels_inv df steps offsets df' :
  transform_sample_voxels df steps offsets = Ok df' →
  has_region df' = has_region df ∧
  ∀ r', r' ∈ rows df' →
    ∃ r, r ∈ rows df ∧ sample_id r' = sample_id r ∧
         ∀ i, ∃ o, offsets i = Some o ∧
                   get_coord i r' = (inject_Z (Qtrunc (get_coord i r / steps i)) + o)%Q.
Proof.
  rewrite transform_sample_voxels_axes.
  destruct (transform_axis steps offsets cx df) as [df1|] eqn:H1; [|done].
  rewrite result_bind_Ok.
  destruct (transform_axis steps offsets cy df1) as [df2|] eqn:H2; [|done].
  rewrite result_bind_Ok. intros H3.
  apply transform_axis_inv in H1 as [Hr1 H1], H2 as [Hr2 H2], H3 as [Hr3 H3].
  split; [congruence|]. intros r3 Hin.
  apply list_elem_of_lookup_1 in Hin as [j Hj].
  destruct (Forall2_lookup_r _ _ _ _ _ H3 Hj) as (r2 & Hj2 & o3 & Ho3 & ->).
  destruct (Forall2_lookup_r _ _ _ _ _ H2 Hj2) as (r1 & Hj1 & o2 & Ho2 & ->).
  destruct (Forall2_lookup_r _ _ _ _ _ H1 Hj1) as (r & Hj0 & o1 & Ho1 & ->).
  exists r. split; [by eapply list_elem_of_lookup_2|]. split; [done|].
  intros []; [exists o1|exists o2|exists o3]; done.
Qed.

Lemma Qfloor_ge (k : Z) (q : Q) : (inject_Z k <= q)%Q → k ≤ Qfloor q.
Proof. intros Hle%Qfloor_resp_le. by rewrite Qfloor_Z in Hle. Qed.

Lemma Qtrunc_within (m : Z) (c bound : Q) :
  0 ≤ m → (inject_Z m < c)%Q → (c < bound - inject_Z m - 1)%Q →
  m ≤ Qtrunc c ∧ Qtrunc c + m + 1 ≤ Qtrunc bound.
Proof.
  intros Hm Hlo Hhi.
  assert (0 <= inject_Z m)%Q as Hm'.
  { change 0%Q with (inject_Z 0). by rewrite <-Zle_Qle. }
  rewrite !Qtrunc_nonneg by lra. split.
  - apply Qfloor_ge. lra.
  - apply Qfloor_ge. pose proof (Qfloor_le c).
    rewrite !inject_Z_plus. change (inject_Z 1) with 1%Q. lra.
Qed.

Lemma filter_valid_samples_subseteq df r :
  r ∈ rows (filter_valid_samples df) → r ∈ rows df.
Proof.
  destruct (has_region df) eqn:Hreg.
  - rewrite filter_valid_samples_rows by done. cbn. by intros [_ ?]%list_elem_of_filter.
  - unfold filter_valid_samples. by rewrite Hreg.
Qed.

Lemma prepare_samples_inv samples_df steps offsets region region_df samples r :
  prepare_samples samples_df steps offsets region region_df = Ok samples →
  r ∈ rows samples →
  ∃ r0, r0 ∈ rows samples_df ∧ sample_id r = sample_id r0 ∧
        ∀ i, ∃ o, offsets i = Some o ∧
                  get_coord i r = (inject_Z (Qtrunc (get_coord i r0 / steps i)) + o)%Q.
Proof.
  unfold prepare_samples.
  destruct (transform_sample_voxels samples_df steps offsets) as [t|] eqn:Ht; [|done].
  rewrite result_bind_Ok. apply transform_sample_voxels_inv in Ht as [_ Ht].
  destruct (region_given region) as [name|].
  - destruct (transform_sample_voxels region_df steps offsets) as [rt|]; [|done].
    rewrite result_bind_Ok.
    destruct (merge_region t rt name) as [merged|] eqn:Hmerge; [|done].
    rewrite result_bind_Ok. intros [= <-] Hr%filter_valid_samples_subseteq.
    apply (merge_region_elem_of _ _ _ _ _ Hmerge) in Hr as (left & Hleft & ->).
    destruct (Ht left Hleft) as (r0 & ? & ? & Hcoords). exists r0.
    split; [done|]. split; [done|]. intros i. destruct (Hcoords i) as (o & ? & ?).
    exists o. split; [done|]. by destruct i.
  - rewrite result_bind_Ok. intros [= <-] Hr%filter_valid_samples_subseteq.
    by apply Ht.
Qed.

Lemma make_setup_file_series samples length width height terms setup :
  make_setup_file samples length width height terms = Ok setup →
  ∃ l w h series,
    length = Some l ∧ width = Some w ∧ height = Some h ∧
    find "series" setup = Some series ∧
    get "length" series = Some (pretty (Qtrunc l)) ∧
    get "width" series = Some (pretty (Qtrunc w)) ∧
    get "height" series = Some (pretty (Qtrunc h)).
Proof.
  unfold make_setup_file.
  destruct height as [h|]; [|done]. destruct length as [l|]; [|done].
  destruct width as [w|]; [|done]. cbn [py_int]. rewrite !result_bind_Ok.
  intros [= <-]. exists l, w, h. eexists. split_and!; reflexivity.
Qed.

Lemma calculate_sample_transform_bound get_step_size df margins i b :
  (∀ i, (0 < get_step_size (column i df))%Q) →
  (calculate_sample_transform get_step_size df margins).2 i = Some b →
  rows df ≠ [] ∧ b = transform_bound get_step_size df margins i.
Proof.
  intros Hsteps Hb.
  assert (rows df ≠ []) as Hrows.
  { intros Hnil. cbn in Hb. unfold column in Hb. rewrite Hnil in Hb. done. }
  split; [done|].
  pose proof (calculate_sample_transform_finite get_step_size df margins Hrows Hsteps) as Hcalc.
  destruct (calculate_sample_transform get_step_size df margins) as [[steps offsets] bounds].
  destruct (Hcalc i) as (_ & _ & Hbound). cbn in Hb. congruence.
Qed.

Section grid.
Context (get_step_size : list Q → Q) (config : Config) (terms : list string).

(** X18: the voxels of the locations lie within the grid of the setup file.
    With margins that are not negative and a positive step on every axis,
    when [convert_arcade] completes, the series of the setup file declares
    a length, a width and a height, and every voxel [x, y, z] of every
    location has, on each axis, a coordinate that is at least the margin of
    the axis and leaves at least the margin free below the declared size:
    margin <= v and v + margin + 1 <= size. *)
Theorem locations_within_the_setup_grid samples_df margins region region_df reference saved :
  (∀ i, 0 ≤ margin_of margins i) →
  (∀ i, (0 < get_step_size (column i samples_df))%Q) →
  convert_arcade_files get_step_size config terms samples_df margins region region_df
    reference = (saved, None) →
  ∃ cells locations setup series (size : coord → Z),
    saved = [SavedCells cells; SavedLocations locations; SavedSetup setup] ∧
    find "series" setup = Some series ∧
    get "length" series = Some (pretty (size cx)) ∧
    get "width" series = Some (pretty (size cy)) ∧
    get "height" series = Some (pretty (size cz)) ∧
    ∀ location entry voxel,
      location ∈ locations → entry ∈ location_location location →
      voxel ∈ entry_voxels entry →
      ∃ x y z, voxel = [x; y; z] ∧
               within_grid margins size cx x ∧ within_grid margins size cy y ∧
               within_grid margins size cz z.
Proof.
  intros Hmargins Hsteps Hfiles%convert_arcade_files_inv.
  pose proof (calculate_sample_transform_bound get_step_size samples_df margins) as Hbound.
  destruct (calculate_sample_transform get_step_size samples_df margins)
    as [[steps offsets] bounds] eqn:Hcalc.
  destruct Hfiles as [[_ [(? & ? & _)|(? & ? & ? & _)]]|Hfiles]; [done..|].
  destruct Hfiles as (samples & cells & locations & Hprep & Hconv & [(_ & ? & ? & _)|Hsetup]);
    [done|].
  destruct Hsetup as (setup & -> & _ & Hsetup).
  apply make_setup_file_series in Hsetup
    as (l & w & h & series & Hl & Hw & Hh & Hseries & Hgl & Hgw & Hgh).
  set (bound := λ i, match i with cx => l | cy => w | cz => h end).
  assert (∀ i, bounds i = Some (bound i)) as Hbounds by (by intros []).
  assert (rows samples_df ≠ [] ∧
          ∀ i, bound i = transform_bound get_step_size samples_df margins i)
    as [Hrows Hbound'].
  { split; [by destruct (Hbound cx l Hsteps Hl)|].
    intros i. by destruct (Hbound i (bound i) Hsteps (Hbounds i)). }
  pose proof (calculate_sample_transform_finite get_step_size samples_df margins Hrows Hsteps)
    as Hfinite.
  rewrite Hcalc in Hfinite.
  exists cells, locations, setup, series, (λ i, Qtrunc (bound i)).
  split_and!; [done..|].
  intros location entry voxel Hlocation Hentry Hvoxel.
  apply convert_samples_inv in Hconv as (_ & _ & _ & Hlocations & _).
  destruct (Hlocations location Hlocation) as (new_id & k & Hloc & _).
  destruct (proj1 (convert_to_location_voxels _ _ _ (entry_region entry) voxel Hloc))
    as (r & [_ Hr]%list_elem_of_filter & -> & _); [by exists entry|].
  destruct (prepare_samples_inv _ _ _ _ _ _ _ Hprep Hr) as (r0 & Hr0 & _ & Hcoords).
  exists (Qtrunc (sample_x r)), (Qtrunc (sample_y r)), (Qtrunc (sample_z r)).
  split; [done|].
  assert (∀ i, within_grid margins (λ i, Qtrunc (bound i)) i (Qtrunc (get_coord i r)))
    as Hwithin; [|by split_and!; [apply (Hwithin cx)|apply (Hwithin cy)|apply (Hwithin cz)]].
  intros i. unfold within_grid. cbv beta.
  destruct (Hcoords i) as (o & Ho & ->). destruct (Hfinite i) as (Hs & Hoff & _).
  rewrite Hoff in Ho. injection Ho as <-. rewrite Hbound', Hs.
  destruct (min_is_Some (column i samples_df)) as [lo Hlo];
    [unfold column; by destruct (rows samples_df)|].
  destruct (max_is_Some (column i samples_df)) as [hi Hhi];
    [unfold column; by destruct (rows samples_df)|].
  unfold transform_offset, transform_bound. rewrite Hlo, Hhi. cbn [default].
  assert (get_coord i r0 ∈ column i samples_df) as Hin by (apply list_elem_of_fmap; eauto).
  destruct (scaled_between (get_step_size (column i samples_df))
              (inject_Z (margin_of margins i)) lo hi (get_coord i r0)) as [Hlow Hhigh];
    [apply Hsteps|by apply (min_spec _ _ Hlo)|by apply (max_spec _ _ Hhi)|].
  by apply Qtrunc_within.
Qed.

End grid.

(** X18 on the two cells and the nucleus of the first, margins of one. *)
Lemma locations_within_the_setup_grid_witness :
  ∃ saved cells locations setup series (size : coord → Z),
    convert_arcade_files ProcessSamples.get_step_size (example_config ["DEFAULT"; "NUCLEUS"])
      ["volume"; "adhesion"] plain_cells (1, 1, 1) (Some "NUCLEUS") nucleus_voxels ∅
      = (saved, None) ∧
    saved = [SavedCells cells; SavedLocations locations; SavedSetup setup] ∧
    find "series" setup = Some series ∧
    get "length" series = Some (pretty (size cx)) ∧
    get "width" series = Some (pretty (size cy)) ∧
    get "height" series = Some (pretty (size cz)) ∧
    ∀ location entry voxel,
      location ∈ locations → entry ∈ location_location location →
      voxel ∈ entry_voxels entry →
      ∃ x y z, voxel = [x; y; z] ∧
               within_grid (1, 1, 1) size cx x ∧ within_grid (1, 1, 1) size cy y ∧
               within_grid (1, 1, 1) size cz z.
Proof.
  destruct (convert_arcade_files ProcessSamples.get_step_size
              (example_config ["DEFAULT"; "NUCLEUS"]) ["volume"; "adhesion"] plain_cells
              (1, 1, 1) (Some "NUCLEUS") nucleus_voxels ∅) as [saved [e|]] eqn:Hfiles;
    [vm_compute in Hfiles; discriminate|].
  exists saved.
  destruct (locations_within_the_setup_grid ProcessSamples.get_step_size
              (example_config ["DEFAULT"; "NUCLEUS"]) ["volume"; "adhesion"] plain_cells
              (1, 1, 1) (Some "NUCLEUS") nucleus_voxels ∅ saved)
    as (cells & locations & setup & series & size & H).
  - intros []; cbn; lia.
  - intros []; vm_compute; reflexivity.
  - exact Hfiles.
  - exists cells, locations, setup, series, size. split; [reflexivity|exact H].
Defined.

(** ** Reading the locations back *)

Lemma filter_all {A} (P : A → Prop) `{∀ x, Decision (P x)} (l : list A) :
  (∀ x, x ∈ l → P x) → filter P l = l.
Proof.
  induction l as [|x l IH]; [done|]. intros Hall.
  rewrite filter_cons, decide_True by (apply Hall; by left).
  f_equal. apply IH. intros; apply Hall; by right.
Qed.

Lemma filter_none {A} (P : A → Prop) `{∀ x, Decision (P x)} (l : list A) :
  (∀ x, x ∈ l → ¬ P x) → filter P l = [].
Proof.
  induction l as [|x l IH]; [done|]. intros Hall.
  rewrite filter_cons, decide_False by (apply Hall; by left).
  apply IH. intros; apply Hall; by right.
Qed.

Section groups_partition.
Context {K : Type} `{EqDecision K} (le : relation K) `{∀ a b, Decision (le a b)}.
Context (by_ : Sample → K).

Lemma concat_filter_keys (l : list Sample) (ks : list K) :
  NoDup ks → (∀ r, r ∈ l → by_ r ∈ ks) →
  concat ((λ k, filter (λ r, by_ r = k) l) <$> ks) ≡ₚ l.
Proof.
  intros Hnd. revert l. induction Hnd as [|k ks Hk Hnd IH]; intros l Hl.
  - destruct l as [|r l]; [done|]. specialize (Hl r). rewrite elem_of_nil in Hl.
    destruct Hl. by left.
  - cbn. etrans; [|apply (filter_app_complement (λ r, by_ r = k) l)].
    apply Permutation_app; [done|].
    rewrite <-(IH (filter (λ r, ¬ by_ r = k) l)).
    + apply eq_subrelation; [apply _|]. f_equal.
      apply list_fmap_ext. intros _ k' Hk'%list_elem_of_lookup_2.
      rewrite list_filter_filter.
      apply list_filter_iff. cbn.
      intros r. split; [|tauto]. intros ->. split; [done|]. by intros ->.
    + intros r [Hr Hin]%list_elem_of_filter. apply Hl in Hin.
      apply elem_of_cons in Hin as [?|?]; done.
Qed.

Lemma concat_groupby_groups df :
  concat ((λ kg, rows kg.2) <$> Pandas.groupby le by_ df) ≡ₚ rows df.
Proof.
  unfold Pandas.groupby. rewrite <-list_fmap_compose. cbn.
  apply (concat_filter_keys (rows df)).
  - rewrite <-groupby_keys. apply NoDup_groupby_keys.
  - intros r Hr. rewrite <-groupby_keys. apply elem_of_groupby_keys. eauto.
Qed.

Lemma concat_select_key {B} (f : K → list B) (ks : list K) (key : K) :
  NoDup ks →
  concat ((λ k, if decide (k = key) then f k else []) <$> ks) =
  if decide (key ∈ ks) then f key else [].
Proof.
  induction 1 as [|k ks Hk Hnd IH]; [done|]. cbn. rewrite IH.
  destruct (decide (k = key)) as [->|Hne].
  - rewrite (decide_True (P := key ∈ key :: ks)) by (by left).
    rewrite decide_False by done. by rewrite app_nil_r.
  - cbn. case_decide as Hin.
    + rewrite decide_True by (by right). done.
    + rewrite decide_False; [done|]. intros [?|?]%elem_of_cons; done.
Qed.

End groups_partition.

Lemma bind_guarded {A B} (P : A → Prop) `{∀ x, Decision (P x)} (g : A → list B)
    (l : list A) :
  (x ← l; v ← g x; if decide (P x) then [v] else []) =
  concat ((λ x, if decide (P x) then g x else []) <$> l).
Proof.
  induction l as [|x l IH]; [done|]. rewrite bind_cons, IH, fmap_cons. cbn [concat].
  f_equal. case_decide.
  - induction (g x) as [|v vs IHv]; [done|]. by rewrite bind_cons, IHv.
  - induction (g x) as [|v vs IHv]; [done|]. by rewrite bind_cons, IHv.
Qed.

Lemma get_location_voxels_all location :
  CalculateCoefficients.get_location_voxels location None =
  concat (entry_voxels <$> location_location location).
Proof.
  unfold CalculateCoefficients.get_location_voxels. rewrite bind_guarded.
  apply (f_equal (@concat _)), list_fmap_ext. intros _ entry _. rewrite decide_True; [done|by left].
Qed.

Lemma get_location_voxels_region location region :
  region ≠ "" →
  CalculateCoefficients.get_location_voxels location (Some region) =
  concat ((λ entry, if decide (entry_region entry = region) then entry_voxels entry else [])
            <$> location_location location).
Proof.
  intros Hregion. unfold CalculateCoefficients.get_location_voxels. rewrite bind_guarded.
  apply (f_equal (@concat _)), list_fmap_ext. intros _ entry _.
  assert (region_given (Some region) = Some region) as Hgiven.
  { cbn. by rewrite decide_False. }
  rewrite Hgiven. destruct (decide (entry_region entry = region)) as [Heq|Hne].
  - rewrite decide_True; [done|]. right. by rewrite Heq.
  - rewrite decide_False; [done|]. intros [?|?]; simplify_eq.
Qed.

(** X19: [get_location_voxels] reads back what [convert_to_location] wrote.
    On the location of a converted table, without a region it returns the
    voxels of all the rows of the table (in the order of the rows when the
    table has no regions, region by region when it has), and with a region
    name it returns the voxels of the rows that are listed under this name,
    in the order of the rows; none when no row is. *)
Theorem get_location_voxels_of_converted new_id samples location :
  convert_to_location new_id samples = Ok location →
  CalculateCoefficients.get_location_voxels location None ≡ₚ make_location_voxels samples ∧
  (has_region samples = false →
   CalculateCoefficients.get_location_voxels location None = make_location_voxels samples) ∧
  ∀ region, region ≠ "" →
    CalculateCoefficients.get_location_voxels location (Some region) =
    make_location_voxels (select (λ r, listed_region samples r = region) samples).
Proof.
  intros (_ & _ & Hentries)%convert_to_location_inv.
  rewrite get_location_voxels_all.
  assert (∀ region, region ≠ "" →
            CalculateCoefficients.get_location_voxels location (Some region) =
            make_location_voxels (select (λ r, listed_region samples r = region) samples))
    as Hregion.
  { intros region Hne. rewrite get_location_voxels_region by done.
    rewrite Hentries. unfold listed_region. destruct (has_region samples) eqn:Hreg.
    - unfold groupby_region, Pandas.groupby. rewrite <-!list_fmap_compose.
      trans (concat ((λ k, if decide (k = region)
                           then make_location_voxels
                                  (select (λ r, sample_region r = k) samples)
                           else [])
                     <$> merge_sort Pandas.str_le
                           (Pandas.unique (sample_region <$> rows samples)))).
      { apply (f_equal (@concat _)), list_fmap_ext. by intros _ k _. }
      rewrite concat_select_key
        by (rewrite merge_sort_Permutation; apply NoDup_unique).
      case_decide as Hin; [done|].
      rewrite merge_sort_Permutation, elem_of_unique, list_elem_of_fmap in Hin.
      unfold make_location_voxels. cbn.
      rewrite filter_none; [done|].
      intros r Hr Heq. apply Hin. by exists r.
    - cbn. rewrite app_nil_r. unfold make_location_voxels. cbn. case_decide as Heq.
      + rewrite filter_all; [done|]. by intros.
      + rewrite filter_none; [done|]. by intros. }
  split; [|split; [|exact Hregion]]; clear Hregion; rewrite Hentries.
  - destruct (has_region samples); [|cbn; by rewrite app_nil_r].
    rewrite <-list_fmap_compose. unfold make_location_voxels.
    etrans; [|apply fmap_Permutation,
                      (concat_groupby_groups Pandas.str_le sample_region samples)].
    apply eq_subrelation; [apply _|]. fold (groupby_region samples). clear Hentries.
    induction (groupby_region samples) as [|[k g] groups IH]; [done|].
    cbn. rewrite fmap_app. f_equal. exact IH.
  - intros ->. cbn. by rewrite app_nil_r.
Qed.

Lemma get_location_voxels_of_converted_witness :
  ∃ location,
    convert_to_location 1 nucleus_first_samples = Ok location ∧
    CalculateCoefficients.get_location_voxels location None
      ≡ₚ make_location_voxels nucleus_first_samples ∧
    (has_region nucleus_first_samples = false →
     CalculateCoefficients.get_location_voxels location None
       = make_location_voxels nucleus_first_samples) ∧
    ∀ region, region ≠ "" →
      CalculateCoefficients.get_location_voxels location (Some region) =
      make_location_voxels
        (select (λ r, listed_region nucleus_first_samples r = region) nucleus_first_samples).
Proof.
  eexists. split; [reflexivity|].
  apply (get_location_voxels_of_converted 1 nucleus_first_samples). reflexivity.
Defined.

(** ** The classifier on a critical volume that is not positive *)

(** X20: a critical volume that is zero or negative (a cell far below the
    mean volume of the population rescales to one) makes every threshold
    zero or negative, so no threshold exceeds a volume that is not negative:
    the cell is classified PROLIFERATIVE_G2, like the largest cells. *)
Theorem get_cell_phase_nonpositive_critical_volume volume critical_volume :
  (critical_volume <= 0)%Q → (0 <= volume)%Q →
  get_cell_phase volume critical_volume = Ok ("PROLIFERATIVE", "PROLIFERATIVE_G2").
Proof.
  intros Hcritical Hvolume. unfold get_cell_phase. cbn.
  repeat (case_decide; [exfalso; lra|]). reflexivity.
Qed.

Lemma get_cell_phase_nonpositive_critical_volume_witness :
  get_cell_phase 3 (-91) = Ok ("PROLIFERATIVE", "PROLIFERATIVE_G2").
Proof.
  apply (get_cell_phase_nonpositive_critical_volume 3 (-91)); unfold Qle; cbn; lia.
Defined.

(** ** The center of a location *)

Lemma sum_bounds (col : list Q) (lo hi : Q) :
  (∀ x, x ∈ col → (lo <= x)%Q ∧ (x <= hi)%Q) →
  (lo * inject_Z (len col) <= Pandas.sum col)%Q ∧
  (Pandas.sum col <= hi * inject_Z (len col))%Q.
Proof.
  induction col as [|x col IH]; intros Hall.
  - change (inject_Z (len [])) with 0%Q. cbn. split; lra.
  - destruct IH as [IH1 IH2]; [intros; apply Hall; by right|].
    destruct (Hall x) as [Hlo Hhi]; [by left|].
    assert (inject_Z (len (x :: col)) == inject_Z (len col) + 1)%Q as ->.
    { unfold len. cbn [length]. rewrite Nat2Z.inj_succ, <-Z.add_1_r, inject_Z_plus. done. }
    cbn [Pandas.sum foldr]. fold (Pandas.sum col). split; lra.
Qed.

Lemma mean_bounds (col : list Q) (lo hi m : Q) :
  Pandas.min col = Some lo → Pandas.max col = Some hi → Pandas.mean col = Some m →
  (lo <= m)%Q ∧ (m <= hi)%Q.
Proof.
  intros Hlo Hhi Hm.
  assert (col ≠ []) as Hne by (by destruct col).
  rewrite mean_nonempty in Hm by done. injection Hm as <-.
  destruct (sum_bounds col lo hi) as [H1 H2].
  { intros x Hx. split; [by apply (min_spec _ _ Hlo)|by apply (max_spec _ _ Hhi)]. }
  assert (0 < inject_Z (len col))%Q as Hn.
  { change 0%Q with (inject_Z 0). rewrite <-Zlt_Qlt. unfold len. destruct col; [done|].
    cbn [length]. lia. }
  split.
  - apply Qle_shift_div_l; [done|]. done.
  - apply Qle_shift_div_r; [done|]. done.
Qed.

(** X21: the center of a location lies in the bounding box of its voxels.
    When [make_location_center] returns, the table has rows, the center has
    three coordinates, and on each axis the coordinate of the center is
    between the truncated minimum and the truncated maximum of the column,
    which are the smallest and the largest voxel coordinate on the axis. *)
Theorem make_location_center_within_bounding_box samples center :
  make_location_center samples = Ok center →
  rows samples ≠ [] ∧
  ∃ c : coord → Z,
    center = c <$> coords ∧
    ∀ i, ∃ lo hi,
      Pandas.min (column i samples) = Some lo ∧
      Pandas.max (column i samples) = Some hi ∧
      Qtrunc lo ≤ c i ≤ Qtrunc hi ∧
      ∀ voxel v, voxel ∈ make_location_voxels samples →
        voxel !! (match i with cx => 0 | cy => 1 | cz => 2 end)%nat = Some v →
        Qtrunc lo ≤ v ≤ Qtrunc hi.
Proof.
  unfold make_location_center. intros Hcenter.
  assert (rows samples ≠ []) as Hrows.
  { intros Hnil. unfold column in Hcenter. rewrite Hnil in Hcenter. done. }
  split; [done|].
  assert (∀ i, ∃ lo hi m,
            Pandas.min (column i samples) = Some lo ∧
            Pandas.max (column i samples) = Some hi ∧
            Pandas.mean (column i samples) = Some m) as Hstats.
  { intros i.
    destruct (min_is_Some (column i samples)) as [lo Hlo]; [unfold column; by destruct (rows samples)|].
    destruct (max_is_Some (column i samples)) as [hi Hhi]; [unfold column; by destruct (rows samples)|].
    exists lo, hi. eexists. split; [done|]. split; [done|].
    apply mean_nonempty. unfold column; by destruct (rows samples). }
  exists (λ i, Qtrunc (default 0%Q (Pandas.mean (column i samples)))). split.
  - destruct (Hstats cx) as (? & ? & mx & _ & _ & Hx).
    destruct (Hstats cy) as (? & ? & my & _ & _ & Hy).
    destruct (Hstats cz) as (? & ? & mz & _ & _ & Hz).
    cbn in Hcenter |- *. rewrite Hx, Hy, Hz in Hcenter |- *. cbn in Hcenter.
    by injection Hcenter as <-.
  - intros i. destruct (Hstats i) as (lo & hi & m & Hlo & Hhi & Hm).
    exists lo, hi. split; [done|]. split; [done|]. rewrite Hm. cbn [default].
    destruct (mean_bounds _ _ _ _ Hlo Hhi Hm) as [H1 H2]. split.
    + split; by apply Qtrunc_le.
    + intros voxel v (r & -> & Hr)%list_elem_of_fmap Hv.
      assert (v = Qtrunc (get_coord i r)) as -> by (destruct i; by simplify_eq/=).
      assert (get_coord i r ∈ column i samples) as Hin by (apply list_elem_of_fmap; eauto).
      split; apply Qtrunc_le; [by apply (min_spec _ _ Hlo)|by apply (max_spec _ _ Hhi)].
Qed.

Lemma make_location_center_within_bounding_box_witness :
  rows five_samples ≠ [] ∧
  ∃ c : coord → Z,
    [3; 6; 8] = c <$> coords ∧
    ∀ i, ∃ lo hi,
      Pandas.min (column i five_samples) = Some lo ∧
      Pandas.max (column i five_samples) = Some hi ∧
      Qtrunc lo ≤ c i ≤ Qtrunc hi ∧
      ∀ voxel v, voxel ∈ make_location_voxels five_samples →
        voxel !! (match i with cx => 0 | cy => 1 | cz => 2 end)%nat = Some v →
        Qtrunc lo ≤ v ≤ Qtrunc hi.
Proof.
  apply (make_location_center_within_bounding_box five_samples [3; 6; 8]). reflexivity.
Defined.
